(** * Verification of the code-mode tool broker

    A shallow embedding of the security manager ([src/security-manager.ts]),
    of the tool proxy of the runtime manager ([createMCPToolProxy],
    [convertArgsToParams], [createLegacyMockResponse]) and of the request entry
    point of the MCP client manager ([src/mcp-client-manager.ts]), together
    with the properties the specification states about them.

    Conventions of the embedding:
    - a JavaScript value is a tree ([value]); an object is the list of its own
      enumerable properties in enumeration order, with distinct keys;
    - a JavaScript number is an integer ([Z]), printed as JavaScript prints
      it when it is a safe integer ([JS.safe]); a string is a [string], whose
      characters stand for code units (case mapping is the ASCII one);
    - an instant ([Date]) is its number of milliseconds since the epoch; all
      [new Date()] readings taken during one synchronous call are the same
      instant, passed as [now];
    - a [Map] is a finite map ([gmap]) from strings; a dictionary object is
      the finite map of its own properties, and a read [obj[name]] that
      finds none goes on to [Object.prototype] ([inherited]);
    - a thrown exception is the [Throws] outcome, with the message of the
      error, after [TypeError: ] for an error of that class; mutable fields
      of a class are threaded as an explicit state. *)

From Stdlib Require Import ZArith Ascii String List Lia.
From stdpp Require Import base option list strings pretty gmap.

Local Open Scope Z_scope.

(** ** Strings *)

Module Str.

Definition is_upper (c : ascii) : bool :=
  let n := nat_of_ascii c in (Nat.leb 65 n && Nat.leb n 90)%bool.

Definition is_lower (c : ascii) : bool :=
  let n := nat_of_ascii c in (Nat.leb 97 n && Nat.leb n 122)%bool.

Definition is_digit (c : ascii) : bool :=
  let n := nat_of_ascii c in (Nat.leb 48 n && Nat.leb n 57)%bool.

Definition lower_char (c : ascii) : ascii :=
  if is_upper c then ascii_of_nat (nat_of_ascii c + 32) else c.

Definition upper_char (c : ascii) : ascii :=
  if is_lower c then ascii_of_nat (nat_of_ascii c - 32) else c.

(** [String.prototype.toLowerCase]. *)
Fixpoint toLowerCase (s : string) : string :=
  match s with
  | EmptyString => EmptyString
  | String c s' => String (lower_char c) (toLowerCase s')
  end.

(** [s] begins with [pat], character for character. *)
Fixpoint startsWith (pat s : string) : bool :=
  match pat, s with
  | EmptyString, _ => true
  | String p pat', String c s' => (Ascii.eqb p c && startsWith pat' s')%bool
  | String _ _, EmptyString => false
  end.

(** [String.prototype.includes]. *)
Fixpoint includes (s pat : string) : bool :=
  (startsWith pat s ||
   match s with
   | EmptyString => false
   | String _ s' => includes s' pat
   end)%bool.

(** [Array.prototype.join] on strings. *)
Fixpoint join (sep : string) (l : list string) : string :=
  match l with
  | [] => EmptyString
  | [x] => x
  | x :: rest => x +:+ sep +:+ join sep rest
  end.

Definition len (s : string) : Z := Z.of_nat (String.length s).

End Str.

(** ** Regular expressions with the [g] flag, replaced by the empty string

    A pattern is given by its matcher: [m s] is the length of the match of the
    pattern at the very beginning of [s], if there is one.  None of the
    patterns of the program matches the empty string. *)

Module Regex.

Definition matcher := string → option nat.

(** [s.replace(/re/g, '')]: scan from the left; where the pattern matches,
    drop the match and go on right after it; elsewhere keep the character. *)
Fixpoint replace_from (m : matcher) (skip : nat) (s : string) : string :=
  match s with
  | EmptyString => EmptyString
  | String c s' =>
      match skip with
      | S k => replace_from m k s'
      | O =>
          match m s with
          | Some (S k) => replace_from m k s'
          | _ => String c (replace_from m 0 s')
          end
      end
  end.

Definition replace_all (m : matcher) (s : string) : string :=
  replace_from m 0 s.

(** Character comparison under the [i] flag: both sides are upper-cased. *)
Definition eqb_ci (a b : ascii) : bool :=
  Ascii.eqb (Str.upper_char a) (Str.upper_char b).

Fixpoint startsWith_ci (pat s : string) : bool :=
  match pat, s with
  | EmptyString, _ => true
  | String p pat', String c s' => (eqb_ci p c && startsWith_ci pat' s')%bool
  | String _ _, EmptyString => false
  end.

(** A literal under the [i] flag, such as [/javascript:/gi]. *)
Definition literal_ci (pat : string) : matcher :=
  λ s, if startsWith_ci pat s then Some (String.length pat) else None.

(** Alternation [a|b|c]: the first alternative that matches. *)
Fixpoint alt (ms : list matcher) : matcher :=
  λ s, match ms with
       | [] => None
       | m :: rest => match m s with Some n => Some n | None => alt rest s end
       end.

(** Word characters of [\b]. *)
Definition is_word (c : ascii) : bool :=
  (Str.is_upper c || Str.is_lower c || Str.is_digit c || Ascii.eqb c "_")%bool.

(** Offset of the first occurrence of [pat] (under [i]) in [s]. *)
Fixpoint find_ci (pat s : string) : option nat :=
  if startsWith_ci pat s then Some O
  else match s with
       | EmptyString => None
       | String _ s' => S <$> find_ci pat s'
       end.

Fixpoint drop (n : nat) (s : string) : string :=
  match n, s with
  | S k, String _ s' => drop k s'
  | _, _ => s
  end.

(** The script-tag pattern of [sanitizeInputs], flags [gi]: the literal
    [<script], a word boundary, a run of characters other than [<], then
    any number of groups (each one: not at [</script>], a [<], a run of
    characters other than [<]), then the literal [</script>].

    After [<script] and the word boundary, a run has to stop at the next
    [<] (what follows it begins with [<]); at a [<] the group is taken
    unless [</script>] begins there, in which case the look-ahead fails and
    the closing literal ends the match.  So the match runs from [<script]
    to the end of the first [</script>] that begins after it. *)
Definition script_tag : matcher :=
  λ s,
    if startsWith_ci "<script" s then
      let rest := drop 7 s in
      let boundary :=
        match rest with
        | EmptyString => true
        | String c _ => negb (is_word c)
        end in
      if boundary then
        match find_ci "</script>" rest with
        | Some n => Some (7 + n + 9)%nat
        | None => None
        end
      else None
    else None.

End Regex.

(** ** JavaScript values *)

Unset Elimination Schemes.
Inductive value : Type :=
| VUndefined
| VNull
| VBool (b : bool)
| VNum (n : Z)
| VStr (s : string)
| VArr (items : list value)
| VObj (props : list (string * value)).
Set Elimination Schemes.

(** Induction with the hypothesis for every element of an array and every
    property value of an object. *)
Section value_induction.
Variable P : value → Prop.
Hypothesis Hundef : P VUndefined.
Hypothesis Hnull : P VNull.
Hypothesis Hbool : ∀ b, P (VBool b).
Hypothesis Hnum : ∀ n, P (VNum n).
Hypothesis Hstr : ∀ s, P (VStr s).
Hypothesis Harr : ∀ items, Forall P items → P (VArr items).
Hypothesis Hobj : ∀ props, Forall (λ kv, P kv.2) props → P (VObj props).

Fixpoint value_ind (v : value) : P v :=
  match v with
  | VUndefined => Hundef
  | VNull => Hnull
  | VBool b => Hbool b
  | VNum n => Hnum n
  | VStr s => Hstr s
  | VArr items =>
      Harr items
        ((fix all (l : list value) : Forall P l :=
            match l with
            | [] => Forall_nil_2 P
            | x :: l' => Forall_cons_2 P x l' (value_ind x) (all l')
            end) items)
  | VObj props =>
      Hobj props
        ((fix all (l : list (string * value)) : Forall (λ kv, P kv.2) l :=
            match l with
            | [] => Forall_nil_2 _
            | kv :: l' => Forall_cons_2 (λ kv, P kv.2) kv l' (value_ind kv.2) (all l')
            end) props)
  end.
End value_induction.

Module JS.

Inductive type := TUndefined | TObject | TBoolean | TNumber | TString.

(** The [typeof] operator ([typeof null] is ['object'], as for arrays). *)
Definition typeof (v : value) : type :=
  match v with
  | VUndefined => TUndefined
  | VNull | VArr _ | VObj _ => TObject
  | VBool _ => TBoolean
  | VNum _ => TNumber
  | VStr _ => TString
  end.

Definition is_object (v : value) : bool :=
  match typeof v with TObject => true | _ => false end.

Definition isArray (v : value) : bool :=
  match v with VArr _ => true | _ => false end.

(** Truthiness, as tested by [if (x)]. *)
Definition truthy (v : value) : bool :=
  match v with
  | VUndefined | VNull => false
  | VBool b => b
  | VNum n => negb (n =? 0)
  | VStr s => negb (String.eqb s EmptyString)
  | VArr _ | VObj _ => true
  end.

(** [Number.MAX_SAFE_INTEGER].  A number [VNum n] stands for the integer
    [n]; JavaScript prints a number with all its digits, as [pretty] does,
    when it is a safe integer (beyond them a number has digits rounded away
    and, from [1e21] on, an exponent). *)
Definition MAX_SAFE_INTEGER : Z := 9007199254740991.

Definition safe_integer (n : Z) : bool :=
  ((- MAX_SAFE_INTEGER <=? n) && (n <=? MAX_SAFE_INTEGER))%bool.

(** The numbers inside a value are safe integers. *)
Fixpoint safe (v : value) : bool :=
  match v with
  | VNum n => safe_integer n
  | VArr items => forallb safe items
  | VObj props => forallb (λ kv : string * value, safe kv.2) props
  | _ => true
  end.

(** Decimal rendering of an index, and of a number that is a safe integer. *)
Definition index_key (i : nat) : string := pretty i.
Definition number_to_string (n : Z) : string := pretty n.

(** The entries of an array: its elements under their indices. *)
Fixpoint indexed_from {A} (i : nat) (l : list A) : list (string * A) :=
  match l with
  | [] => []
  | x :: l' => (index_key i, x) :: indexed_from (S i) l'
  end.
Definition indexed {A} (l : list A) : list (string * A) := indexed_from 0 l.

Fixpoint chars (s : string) : list value :=
  match s with
  | EmptyString => []
  | String c s' => VStr (String c EmptyString) :: chars s'
  end.

(** [Object.entries]: a [TypeError] ([None]) on [null] and [undefined]. *)
Definition Object_entries (v : value) : option (list (string * value)) :=
  match v with
  | VUndefined | VNull => None
  | VBool _ | VNum _ => Some []
  | VStr s => Some (indexed (chars s))
  | VArr items => Some (indexed items)
  | VObj props => Some props
  end.

(** Property read [o.k] on an object value ([undefined] when absent), for a
    name [k] that [Object.prototype] does not have. *)
Fixpoint get (k : string) (props : list (string * value)) : value :=
  match props with
  | [] => VUndefined
  | (k', v) :: rest => if String.eqb k k' then v else get k rest
  end.

(** The object has a property [k] of its own. *)
Definition has_own (k : string) (props : list (string * value)) : bool :=
  existsb (λ kv : string * value, String.eqb kv.1 k) props.

(** The names of the properties every plain object inherits from
    [Object.prototype]: reading one of them on an object that has no
    property of that name finds a function (the object [Object.prototype]
    itself for [__proto__]). *)
Definition Object_prototype : list string :=
  ["constructor"; "__defineGetter__"; "__defineSetter__"; "hasOwnProperty";
   "__lookupGetter__"; "__lookupSetter__"; "isPrototypeOf";
   "propertyIsEnumerable"; "toString"; "valueOf"; "__proto__"; "toLocaleString"].

Definition in_Object_prototype (k : string) : bool :=
  existsb (String.eqb k) Object_prototype.

(** The properties that the assignments [o[key] = value], made in order on
    an object that starts empty, leave on it: an assignment to [__proto__]
    runs the setter of [Object.prototype] and creates no property. *)
Definition assigned {A} (entries : list (string * A)) : list (string * A) :=
  List.filter (λ kv : string * A, negb (String.eqb kv.1 "__proto__")) entries.

End JS.

(** [for ... of] over a list with a body that may throw. *)
Definition mapM {A B} (f : A → option B) : list A → option (list B) :=
  fix go (l : list A) : option (list B) :=
    match l with
    | [] => Some []
    | x :: l' =>
        match f x with
        | None => None
        | Some y => match go l' with None => None | Some ys => Some (y :: ys) end
        end
    end.


(** ** [JSON.stringify] *)

Module JSON.

Definition hex_digit (n : nat) : ascii :=
  match n with
  | 0 => "0" | 1 => "1" | 2 => "2" | 3 => "3" | 4 => "4"
  | 5 => "5" | 6 => "6" | 7 => "7" | 8 => "8" | 9 => "9"
  | 10 => "a" | 11 => "b" | 12 => "c" | 13 => "d" | 14 => "e"
  | _ => "f"
  end%nat%char.

Definition dquote : ascii := ascii_of_nat 34.
Definition backslash : ascii := ascii_of_nat 92.
Definition escape (c : ascii) : string := String backslash (String c EmptyString).

(** One character of a string literal: the quote and the backslash are
    escaped, control characters get their short escape or the form with [u]
    and four hexadecimal digits. *)
Definition quote_char (c : ascii) : string :=
  let n := nat_of_ascii c in
  if Ascii.eqb c dquote then escape dquote
  else if Ascii.eqb c backslash then escape backslash
  else if Nat.eqb n 8 then escape "b"
  else if Nat.eqb n 9 then escape "t"
  else if Nat.eqb n 10 then escape "n"
  else if Nat.eqb n 12 then escape "f"
  else if Nat.eqb n 13 then escape "r"
  else if Nat.ltb n 32 then
    escape "u" +:+ "00" +:+
    String (hex_digit (n / 16)) (String (hex_digit (n mod 16)) EmptyString)
  else String c EmptyString.

Fixpoint quote_body (s : string) : string :=
  match s with
  | EmptyString => EmptyString
  | String c s' => quote_char c +:+ quote_body s'
  end.

Definition quote (s : string) : string :=
  String dquote (quote_body s +:+ String dquote EmptyString).

(** [JSON.stringify(v)]; [None] is the result [undefined].  In an array
    [undefined] is written [null]; in an object a property whose value is
    [undefined] is left out. *)
Fixpoint stringify (v : value) : option string :=
  match v with
  | VUndefined => None
  | VNull => Some "null"
  | VBool b => Some (if b then "true" else "false")
  | VNum n => Some (JS.number_to_string n)
  | VStr s => Some (quote s)
  | VArr items =>
      Some ("[" +:+ Str.join "," (map (λ x, default "null" (stringify x)) items) +:+ "]")
  | VObj props =>
      Some ("{" +:+
            Str.join ","
              (omap (λ kv : string * value,
                       (λ sx, quote kv.1 +:+ ":" +:+ sx) <$> stringify kv.2) props)
            +:+ "}")
  end.

End JSON.

Definition mapM_indexed {A B} (f : string → A → option B)
  : nat → list A → option (list (string * B)) :=
  fix go (i : nat) (l : list A) : option (list (string * B)) :=
    match l with
    | [] => Some []
    | x :: l' =>
        match f (JS.index_key i) x with
        | None => None
        | Some y =>
            match go (S i) l' with
            | None => None
            | Some ys => Some ((JS.index_key i, y) :: ys)
            end
        end
    end.

Definition mapM_props {A B} (f : string → A → option B)
  : list (string * A) → option (list (string * B)) :=
  mapM (λ kv, match f kv.1 kv.2 with None => None | Some y => Some (kv.1, y) end).

(** ** Sanitization ([security-manager.ts]) *)

Module Sanitize.

(** The chain of [replace] calls applied to a string property. *)
Definition sanitize_string (s : string) : string :=
  Regex.replace_all
    (Regex.alt [Regex.literal_ci "onload"; Regex.literal_ci "onerror";
                Regex.literal_ci "onclick"])
    (Regex.replace_all (Regex.literal_ci "vbscript:")
       (Regex.replace_all (Regex.literal_ci "data:")
          (Regex.replace_all (Regex.literal_ci "javascript:")
             (Regex.replace_all Regex.script_tag s)))).

(** The body of the loop of [sanitizeInputs] for one property value;
    [self] is the recursive call [this.sanitizeInputs]. *)
Definition sanitize_value (self : value → option value) (v : value) : option value :=
  match v with
  | VStr s => Some (VStr (sanitize_string s))
  | VArr items =>
      VArr <$> mapM (λ item, if JS.is_object item then self item else Some item) items
  | VObj _ => self v
  | _ => Some v
  end.

(** [sanitizeInputs(params)]; [None] is the [TypeError] of [Object.entries]
    on [null] or [undefined]. *)
Fixpoint sanitizeInputs (params : value) : option value :=
  match params with
  | VUndefined | VNull => None
  | VBool _ | VNum _ => Some (VObj [])
  | VStr s =>
      Some (VObj (JS.indexed
                    (map (λ c, match c with
                               | VStr x => VStr (sanitize_string x)
                               | _ => c
                               end) (JS.chars s))))
  | VArr items =>
      VObj <$> mapM_indexed (λ _ v, sanitize_value sanitizeInputs v) 0 items
  | VObj props =>
      (λ entries, VObj (JS.assigned entries))
        <$> mapM_props (λ _ v, sanitize_value sanitizeInputs v) props
  end.

Definition REDACTED : value := VStr "[REDACTED]".

Definition sensitiveKeys : list string :=
  ["password"; "token"; "secret"; "key"; "auth"; "credential"].

(** [sensitiveKeys.some(sensitive => key.toLowerCase().includes(sensitive))] *)
Definition is_sensitive (key : string) : bool :=
  existsb (λ sensitive, Str.includes (Str.toLowerCase key) sensitive) sensitiveKeys.

(** The body of the loop of [sanitizeForLogging] for one property. *)
Definition redact_value (self : value → option value) (key : string) (v : value)
  : option value :=
  if is_sensitive key then Some REDACTED
  else match v with
       | VArr _ | VObj _ => self v
       | _ => Some v
       end.

(** [sanitizeForLogging(params)]; [None] is the [TypeError] of
    [Object.entries] on [null] or [undefined]. *)
Fixpoint sanitizeForLogging (params : value) : option value :=
  match params with
  | VUndefined | VNull => None
  | VBool _ | VNum _ => Some (VObj [])
  | VStr s => VObj <$> mapM_indexed (redact_value Some) 0 (JS.chars s)
  | VArr items => VObj <$> mapM_indexed (redact_value sanitizeForLogging) 0 items
  | VObj props =>
      (λ entries, VObj (JS.assigned entries))
        <$> mapM_props (redact_value sanitizeForLogging) props
  end.

End Sanitize.

(** ** Outcomes of calls that may throw, over a mutable state *)

Inductive outcome (A : Type) : Type :=
| Returns (a : A)
| Throws (message : string).
Arguments Returns {A} a.
Arguments Throws {A} message.

(** A method of a class with state [S]: its outcome and the state it leaves,
    also when it throws. *)
Definition method (S A : Type) : Type := S → outcome A * S.

Definition ret {S A} (a : A) : method S A := λ st, (Returns a, st).
Definition throw {S A} (message : string) : method S A := λ st, (Throws message, st).
Definition bind {S A B} (m : method S A) (k : A → method S B) : method S B :=
  λ st, match m st with
        | (Returns a, st') => k a st'
        | (Throws e, st') => (Throws e, st')
        end.
Definition gets {S A} (f : S → A) : method S A := λ st, (Returns (f st), st).
Definition modify {S} (f : S → S) : method S unit := λ st, (Returns tt, f st).

Notation "x ←² m ; k" := (bind m (λ x, k))
  (at level 100, m at next level, right associativity, only parsing).
Notation "m ;;² k" := (bind m (λ _, k))
  (at level 100, right associativity, only parsing).

(** ** The security manager ([security-manager.ts]) *)

Module Security.

Export Sanitize.

(** [string[] | '*'] *)
Inductive tool_list := AnyTool | Tools (names : list string).

Record RateLimit := {
  requestsPerMinute : Z;
  maxConcurrent : Z
}.

Record DataValidation := {
  maxPayloadSize : Z;
  allowedDataTypes : list string;
  sanitizeInputsEnabled : bool   (* the field [sanitizeInputs] *)
}.

Record SecurityPolicy := {
  allowedServers : list string;
  allowedTools : gmap string tool_list;
  rateLimits : gmap string RateLimit;
  dataValidation : DataValidation;
  auditLogging : bool
}.

Inductive audit_result := success | denied | error.

Record AuditLogEntry := {
  timestamp : Z;
  runtime : string;
  serverName : string;
  toolName : string;
  params : value;
  result : audit_result;
  reason : option string;
  duration : option Z
}.

Record SecurityPermissions := {
  fileSystem_read : list string;
  fileSystem_write : list string;
  fileSystem_execute : list string;
  network_allowedHosts : list string;
  network_allowedPorts : list Z
}.

Record SecurityContext := {
  ctx_runtime : string;
  permissions : SecurityPermissions
}.

Record SecurityValidation := {
  allowed : bool;
  validation_reason : option string
}.

Record Counter := {
  count : Z;
  window : Z
}.

(** The fields of the class. *)
Record SecurityManager := {
  policy : SecurityPolicy;
  rateLimitCounters : gmap string Counter;
  concurrentRequests : gmap string Z;
  auditLog : list AuditLogEntry
}.

Definition set_rateLimitCounters (f : gmap string Counter → gmap string Counter)
  (st : SecurityManager) : SecurityManager :=
  {| policy := policy st;
     rateLimitCounters := f (rateLimitCounters st);
     concurrentRequests := concurrentRequests st;
     auditLog := auditLog st |}.

Definition set_concurrentRequests (f : gmap string Z → gmap string Z)
  (st : SecurityManager) : SecurityManager :=
  {| policy := policy st;
     rateLimitCounters := rateLimitCounters st;
     concurrentRequests := f (concurrentRequests st);
     auditLog := auditLog st |}.

Definition set_auditLog (f : list AuditLogEntry → list AuditLogEntry)
  (st : SecurityManager) : SecurityManager :=
  {| policy := policy st;
     rateLimitCounters := rateLimitCounters st;
     concurrentRequests := concurrentRequests st;
     auditLog := f (auditLog st) |}.

Definition set_policy (f : SecurityPolicy → SecurityPolicy)
  (st : SecurityManager) : SecurityManager :=
  {| policy := f (policy st);
     rateLimitCounters := rateLimitCounters st;
     concurrentRequests := concurrentRequests st;
     auditLog := auditLog st |}.

(** The policy of the constructor when it is given no override. *)
Definition default_policy : SecurityPolicy := {|
  allowedServers := ["automem"; "serena"; "helpscout"; "wordpress"];
  allowedTools :=
    <["automem" := Tools ["store_memory"; "recall"; "associate"; "analyze"]]>
    (<["serena" := Tools ["get_symbols_overview"; "search_for_pattern"]]>
    (<["helpscout" := Tools ["searchConversations"; "getConversationSummary"]]>
    (<["wordpress" := Tools ["get_site_info"; "wp_feature_query-posts"]]> ∅)));
  rateLimits :=
    <["default" := {| requestsPerMinute := 60; maxConcurrent := 5 |}]>
    (<["automem" := {| requestsPerMinute := 100; maxConcurrent := 10 |}]>
    (<["serena" := {| requestsPerMinute := 30; maxConcurrent := 3 |}]>
    (<["helpscout" := {| requestsPerMinute := 20; maxConcurrent := 2 |}]>
    (<["wordpress" := {| requestsPerMinute := 30; maxConcurrent := 3 |}]> ∅))));
  dataValidation := {|
    maxPayloadSize := 1024 * 1024;
    allowedDataTypes := ["string"; "number"; "boolean"; "object"; "array"];
    sanitizeInputsEnabled := true |};
  auditLogging := true
|}.

(** [Partial<SecurityPolicy>]: the fields given override those of a policy. *)
Record PolicyUpdate := {
  new_allowedServers : option (list string);
  new_allowedTools : option (gmap string tool_list);
  new_rateLimits : option (gmap string RateLimit);
  new_dataValidation : option DataValidation;
  new_auditLogging : option bool
}.

Definition no_update : PolicyUpdate := {|
  new_allowedServers := None;
  new_allowedTools := None;
  new_rateLimits := None;
  new_dataValidation := None;
  new_auditLogging := None
|}.

(** The object spread [{ ...p, ...updates }]. *)
Definition merge (p : SecurityPolicy) (updates : PolicyUpdate) : SecurityPolicy := {|
  allowedServers := default (allowedServers p) (new_allowedServers updates);
  allowedTools := default (allowedTools p) (new_allowedTools updates);
  rateLimits := default (rateLimits p) (new_rateLimits updates);
  dataValidation := default (dataValidation p) (new_dataValidation updates);
  auditLogging := default (auditLogging p) (new_auditLogging updates)
|}.

(** [new SecurityManager(policy)] *)
Definition new (overrides : PolicyUpdate) : SecurityManager := {|
  policy := merge default_policy overrides;
  rateLimitCounters := ∅;
  concurrentRequests := ∅;
  auditLog := []
|}.

Definition string_in (x : string) (l : list string) : bool :=
  existsb (String.eqb x) l.

(** [checkRuntimePermissions] *)
Definition checkRuntimePermissions (context : SecurityContext)
  (serverName toolName : string) : bool :=
  let p := permissions context in
  if (string_in serverName ["helpscout"; "wordpress"]
      && Nat.eqb (length (network_allowedHosts p)) 0)%bool
  then false
  else if (string_in serverName ["serena"; "automem"]
           && (Str.includes toolName "file" || Str.includes toolName "read"
               || Str.includes toolName "write")
           && Nat.eqb (length (fileSystem_read p)) 0
           && Nat.eqb (length (fileSystem_write p)) 0)%bool
  then false
  else true.

(** [Date.prototype.getMinutes], the minute of the hour (in a time zone at a
    whole number of hours from UTC). *)
Definition getMinutes (now : Z) : Z := (now / 60000) mod 60.

(** The key of a server's counter for the minute of [now]. *)
Definition rate_key (serverName : string) (now : Z) : string :=
  serverName +:+ ":" +:+ JS.number_to_string (getMinutes now).

(** Reading [obj[k]] on a plain object that has no property [k] of its own
    finds the member [k] of [Object.prototype], when there is one. *)
Definition inherited {A} (obj : gmap string A) (k : string) : bool :=
  match obj !! k with
  | Some _ => false
  | None => JS.in_Object_prototype k
  end.

(** The entry of [rateLimits] that
    [this.policy.rateLimits[serverName] || this.policy.rateLimits.default]
    finds among the properties of [rateLimits] itself. *)
Definition effective_limits (p : SecurityPolicy) (serverName : string)
  : option RateLimit :=
  match rateLimits p !! serverName with
  | Some l => Some l
  | None => rateLimits p !! "default"
  end.

(** The value of [limits] in [checkRateLimits]. *)
Inductive limits_value :=
| Limits (l : RateLimit)   (* an entry of [rateLimits] *)
| Inherited_member         (* a member of [Object.prototype]; it has neither field *)
| No_limits.               (* [undefined] *)

(** [this.policy.rateLimits[serverName] || this.policy.rateLimits.default] *)
Definition read_limits (p : SecurityPolicy) (serverName : string) : limits_value :=
  if inherited (rateLimits p) serverName then Inherited_member
  else match effective_limits p serverName with
       | Some l => Limits l
       | None => No_limits
       end.

(** [a >= b], where [b] may be [undefined]: the comparison is then false. *)
Definition ge (a : Z) (b : option Z) : bool :=
  match b with
  | Some b => b <=? a
  | None => false
  end.

(** [cleanupRateLimitCounters]: counters older than two minutes go. *)
Definition cleanupRateLimitCounters (now : Z) : method SecurityManager unit :=
  let cutoff := now - 2 * 60 * 1000 in
  modify (set_rateLimitCounters
            (filter (λ kc : string * Counter, ¬ (window kc.2 < cutoff)))).

(** Reading the field [name] of [limits]: [undefined] on a member of
    [Object.prototype], a [TypeError] when [limits] is [undefined]. *)
Definition limits_field (limits : limits_value) (f : RateLimit → Z) (name : string)
  : method SecurityManager (option Z) :=
  match limits with
  | Limits l => ret (Some (f l))
  | Inherited_member => ret None
  | No_limits =>
      throw ("TypeError: Cannot read properties of undefined (reading '"
             +:+ name +:+ "')")
  end.

(** [checkRateLimits] *)
Definition checkRateLimits (serverName : string) (now : Z)
  : method SecurityManager bool :=
  limits ←² gets (λ st, read_limits (policy st) serverName);
  let key := rate_key serverName now in
  counter ←² gets (λ st, rateLimitCounters st !! key);
  let concurrency_check : method SecurityManager bool :=
    concurrent ←² gets (λ st, default 0 (concurrentRequests st !! serverName));
    cap ←² limits_field limits maxConcurrent "maxConcurrent";
    if ge concurrent cap then ret false
    else (cleanupRateLimitCounters now ;;² ret true) in
  match counter with
  | Some c =>
      rpm ←² limits_field limits requestsPerMinute "requestsPerMinute";
      if ge (count c) rpm then ret false
      else
        (modify (set_rateLimitCounters
                   (<[key := {| count := count c + 1; window := window c |}]>)) ;;²
         concurrency_check)
  | None =>
      (modify (set_rateLimitCounters (<[key := {| count := 1; window := now |}]>)) ;;²
       concurrency_check)
  end.

Record PayloadValidation := {
  valid : bool;
  payload_reason : option string
}.

Definition payload_ok : PayloadValidation :=
  {| valid := true; payload_reason := None |}.
Definition payload_rejected (why : string) : PayloadValidation :=
  {| valid := false; payload_reason := Some why |}.

(** The body of the [try] block of [validatePayload]; [None] is an exception
    thrown inside it ([serialized.length] on [undefined], or [sanitizeInputs]
    throwing). *)
Definition validatePayload_try (p : SecurityPolicy) (params : value)
  : option PayloadValidation :=
  serialized ← JSON.stringify params;
  if maxPayloadSize (dataValidation p) <? Str.len serialized then
    Some (payload_rejected "Payload exceeds maximum size limit")
  else if sanitizeInputsEnabled (dataValidation p) then
    sanitized ← sanitizeInputs params;
    if bool_decide (JSON.stringify sanitized = Some serialized) then Some payload_ok
    else Some (payload_rejected "Payload contains potentially unsafe content")
  else Some payload_ok.

(** [validatePayload] *)
Definition validatePayload (p : SecurityPolicy) (params : value) : PayloadValidation :=
  match validatePayload_try p params with
  | Some r => r
  | None => payload_rejected "Invalid payload structure"
  end.

Definition deny (why : option string) : SecurityValidation :=
  {| allowed := false; validation_reason := why |}.
Definition allow : SecurityValidation :=
  {| allowed := true; validation_reason := None |}.

(** [allowedTools !== '*' && (!allowedTools || !allowedTools.includes(toolName))],
    negated, for the value [allowedTools] that [this.policy.allowedTools]
    has under [serverName] as a property of its own, if any: the tool may be
    called on the server. *)
Definition tool_allowed (p : SecurityPolicy) (serverName toolName : string) : bool :=
  match allowedTools p !! serverName with
  | Some AnyTool => true
  | Some (Tools names) => string_in toolName names
  | None => false
  end.

(** [performSecurityChecks] *)
Definition performSecurityChecks (context : SecurityContext)
  (serverName toolName : string) (params : value) (now : Z)
  : method SecurityManager SecurityValidation :=
  p ←² gets policy;
  if negb (string_in serverName (allowedServers p)) then
    ret (deny (Some ("Server " +:+ serverName +:+ " not in allowed list")))
  else if inherited (allowedTools p) serverName then
    (* [allowedTools] is a member of [Object.prototype]: it is truthy, it is
       not ['*'], and it has no method [includes] *)
    throw "TypeError: allowedTools.includes is not a function"
  else if negb (tool_allowed p serverName toolName) then
    ret (deny (Some ("Tool " +:+ toolName +:+ " not allowed on server " +:+ serverName)))
  else if negb (checkRuntimePermissions context serverName toolName) then
    ret (deny (Some "Insufficient runtime permissions"))
  else
    within_limits ←² checkRateLimits serverName now;
    if negb within_limits then ret (deny (Some "Rate limit exceeded"))
    else
      let payloadValidation := validatePayload p params in
      if negb (valid payloadValidation) then
        ret (deny (payload_reason payloadValidation))
      else ret allow.

(** [logAuditEntry]: push, then keep the last 1000 entries. *)
Definition logAuditEntry (entry : AuditLogEntry) : method SecurityManager unit :=
  modify (set_auditLog
            (λ log, let log' := log ++ [entry] in
                    if Nat.ltb 1000 (length log')
                    then drop (length log' - 1000)%nat log'
                    else log')).

(** [validateToolCall] *)
Definition validateToolCall (context : SecurityContext)
  (serverName toolName : string) (params : value) (now : Z)
  : method SecurityManager SecurityValidation :=
  validationResult ←² performSecurityChecks context serverName toolName params now;
  logging ←² gets (λ st, auditLogging (policy st));
  (if logging then
     match sanitizeForLogging params with
     | None => throw "TypeError: Cannot convert undefined or null to object"
     | Some logged =>
         logAuditEntry {|
           timestamp := now;
           runtime := ctx_runtime context;
           serverName := serverName;
           toolName := toolName;
           params := logged;
           result := if allowed validationResult then success else denied;
           reason := validation_reason validationResult;
           duration := None |}
     end
   else ret tt) ;;²
  ret validationResult.

(** [trackRequestStart] *)
Definition trackRequestStart (serverName : string) : method SecurityManager unit :=
  current ←² gets (λ st, default 0 (concurrentRequests st !! serverName));
  modify (set_concurrentRequests (<[serverName := current + 1]>)).

(** [trackRequestEnd] *)
Definition trackRequestEnd (serverName : string) : method SecurityManager unit :=
  current ←² gets (λ st, default 0 (concurrentRequests st !! serverName));
  modify (set_concurrentRequests (<[serverName := Z.max 0 (current - 1)]>)).

(** The optional argument of [getAuditLog]; each of its fields is optional. *)
Record AuditFilter := {
  filter_serverName : option string;
  filter_result : option audit_result;
  filter_since : option Z
}.

Definition audit_result_eqb (a b : audit_result) : bool :=
  match a, b with
  | success, success | denied, denied | error, error => true
  | _, _ => false
  end.

(** The callback given to [filter]; a field that is absent, or an empty
    server name, selects nothing. *)
Definition passes (f : AuditFilter) (entry : AuditLogEntry) : bool :=
  if match filter_serverName f with
     | Some name => negb (String.eqb name EmptyString)
                    && negb (String.eqb (serverName entry) name)
     | None => false
     end%bool
  then false
  else if match filter_result f with
          | Some r => negb (audit_result_eqb (result entry) r)
          | None => false
          end
  then false
  else if match filter_since f with
          | Some since => timestamp entry <? since
          | None => false
          end
  then false
  else true.

(** [Array.prototype.slice(-n)]: the last [n] elements. *)
Definition slice_last {A} (n : nat) (l : list A) : list A :=
  drop (length l - n)%nat l.

(** [getAuditLog] *)
Definition getAuditLog (f : option AuditFilter) (st : SecurityManager)
  : list AuditLogEntry :=
  let filtered :=
    match f with
    | Some flt => List.filter (passes flt) (auditLog st)
    | None => auditLog st
    end in
  slice_last 100 filtered.

(** [updatePolicy] *)
Definition updatePolicy (updates : PolicyUpdate) : method SecurityManager unit :=
  modify (set_policy (λ p, merge p updates)).

End Security.

(** ** Exceptions: [try]/[catch] and [try]/[finally] *)

Definition try_catch {S A} (m : method S A) (handler : string → method S A)
  : method S A :=
  λ st, match m st with
        | (Returns a, st') => (Returns a, st')
        | (Throws e, st') => handler e st'
        end.

Definition try_finally {S A} (m : method S A) (cleanup : method S unit)
  : method S A :=
  λ st, match m st with
        | (r, st') =>
            match cleanup st' with
            | (Returns _, st'') => (r, st'')
            | (Throws e, st'') => (Throws e, st'')
            end
        end.

(** A method of a component, run on the state that holds the component. *)
Definition lift {S T A} (get : S → T) (set : T → S → S) (m : method T A)
  : method S A :=
  λ st, match m (get st) with (r, t') => (r, set t' st) end.

(** ** The MCP client manager ([mcp-client-manager.ts]) *)

Module Client.

Inductive status := starting | ready | failed | stopped.   (* 'error' is [failed] *)

Definition status_name (s : status) : string :=
  match s with
  | starting => "starting" | ready => "ready"
  | failed => "error" | stopped => "stopped"
  end.

Inductive transport := stdio | http.

Record MCPServerInstance := {
  name : string;
  config_type : option transport;
  server_status : status
}.

Record MCPClientConfig := {
  timeout : Z;
  retryAttempts : Z;
  fallbackToMock : bool;
  securityEnabled : bool;
  connectionTimeout : Z
}.

Record MCPClientManager := {
  servers : gmap string MCPServerInstance;
  config : MCPClientConfig;
  requestCounter : Z
}.

(** [generateRequestId] *)
Definition generateRequestId (now : Z) : method MCPClientManager string :=
  λ st,
    let n := requestCounter st + 1 in
    (Returns ("req_" +:+ JS.number_to_string n +:+ "_" +:+ JS.number_to_string now),
     {| servers := servers st; config := config st; requestCounter := n |}).

(** [generateMockResponse] *)
Definition generateMockResponse (method_name : string) (params : value) (now : Z)
  : method MCPClientManager value :=
  id ←² generateRequestId now;
  ret (VObj [("jsonrpc", VStr "2.0");
             ("id", VStr id);
             ("result", VObj [("mock", VBool true);
                              ("method", VStr method_name);
                              ("params", params);
                              ("message", VStr "Mock response - MCP server not available")])]).

(** [sendRequest]; [wire] stands for the exchange with a stdio server: the
    response that resolves the request, or the error that rejects it. *)
Definition sendRequest (wire : string → value → outcome value)
  (serverName method_name : string) (params : value) (now : Z)
  : method MCPClientManager value :=
  found ←² gets (λ st, servers st !! serverName);
  match found with
  | None => throw ("Server " +:+ serverName +:+ " not found")
  | Some server =>
      match server_status server with
      | ready =>
          id ←² generateRequestId now;
          let request := VObj [("jsonrpc", VStr "2.0"); ("id", VStr id);
                               ("method", VStr method_name); ("params", params)] in
          match config_type server with
          | Some http => throw "HTTP MCP servers not yet implemented"
          | _ => λ st, (wire serverName request, st)
          end
      | other =>
          fallback ←² gets (λ st, fallbackToMock (config st));
          if fallback then generateMockResponse method_name params now
          else throw ("Server " +:+ serverName +:+ " not ready (status: "
                      +:+ status_name other +:+ ")")
      end
  end.

(** [isServerAvailable] *)
Definition isServerAvailable (serverName : string) (st : MCPClientManager) : bool :=
  match servers st !! serverName with
  | Some server => match server_status server with ready => true | _ => false end
  | None => false
  end.

End Client.

(** ** The tool proxy of the runtime manager *)

Module Runtime.

Import Security.

(** [args[i]] *)
Definition arg (i : nat) (args : list value) : value := nth i args VUndefined.

(** [if (args[i]) params.k = args[i]] *)
Definition set_if_truthy (k : string) (v : value) (props : list (string * value))
  : list (string * value) :=
  if JS.truthy v then props ++ [(k, v)] else props.

(** [convertArgsToParams] *)
Definition convertArgsToParams (toolName : string) (args : list value) : value :=
  if String.eqb toolName "store_memory" then
    VObj (set_if_truthy "tags" (arg 2 args)
            (set_if_truthy "importance" (arg 1 args)
               (set_if_truthy "content" (arg 0 args) [])))
  else if String.eqb toolName "recall" then
    VObj (set_if_truthy "limit" (arg 1 args)
            (set_if_truthy "query" (arg 0 args) []))
  else if String.eqb toolName "searchConversations" then
    VObj (set_if_truthy "status" (arg 1 args)
            (set_if_truthy "query" (arg 0 args) []))
  else if String.eqb toolName "get_site_info" then
    VObj []
  else if (Nat.eqb (length args) 1 && JS.is_object (arg 0 args))%bool then
    arg 0 args
  else
    VObj (imap (λ index a, ("arg" +:+ JS.index_key index, a)) args).

(** [createLegacyMockResponse] *)
Definition createLegacyMockResponse (serverName toolName : string) (args : list value)
  : value :=
  VObj [("mock", VBool true); ("server", VStr serverName);
        ("method", VStr toolName); ("args", VArr args)].

(** A property read [v.k]: a [TypeError] on [null] and [undefined]; of the
    values modelled only objects carry the properties read here. *)
Definition get_prop (v : value) (k : string) : option value :=
  match v with
  | VUndefined | VNull => None
  | VObj props => Some (JS.get k props)
  | _ => Some VUndefined
  end.

(** String conversion of a value, as [join] and a template literal apply
    it; [None] is a [TypeError].  An object is converted by the [toString]
    it inherits, unless it has a property [toString] of its own: that one is
    no function, and neither is what [valueOf] returns a primitive value.
    (The text of a number is JavaScript's for a safe integer.) *)
Fixpoint toString (v : value) : option string :=
  match v with
  | VUndefined => Some "undefined"
  | VNull => Some "null"
  | VBool b => Some (if b then "true" else "false")
  | VNum n => Some (JS.number_to_string n)
  | VStr s => Some s
  | VArr items =>
      Str.join "," <$> mapM (λ x, match x with
                                  | VUndefined | VNull => Some EmptyString
                                  | _ => toString x
                                  end) items
  | VObj props =>
      if JS.has_own "toString" props then None else Some "[object Object]"
  end.

(** [items.join(sep)] *)
Definition array_join (sep : string) (items : list value) : option string :=
  Str.join sep <$> mapM (λ x, match x with
                              | VUndefined | VNull => Some EmptyString
                              | _ => toString x
                              end) items.

Definition newline : string := String (ascii_of_nat 10) EmptyString.

(** [item.type === 'text'] *)
Definition is_text (ty : value) : bool :=
  match ty with VStr s => String.eqb s "text" | _ => false end.

(** [formatMCPResponse]; [None] is a [TypeError]. *)
Definition formatMCPResponse (response : value) : option value :=
  r ← get_prop response "result";
  if JS.truthy r then Some r
  else
    content ← get_prop response "content";
    if JS.truthy content then
      match content with
      | VArr items =>
          texts ← mapM (λ item,
                     ty ← get_prop item "type";
                     if is_text ty then get_prop item "text"
                     else Some item) items;
          VStr <$> array_join newline texts
      | _ => Some content
      end
    else Some response.

(** The fields of [LocalRuntimeManager] the proxy reads and writes, and the
    [toolsCalled] array of the execution that created the proxy. *)
Record LocalRuntimeManager := {
  securityManager : SecurityManager;
  mcpClient : Client.MCPClientManager;
  fallbackToMocks : bool;
  toolsCalled : list string
}.

Definition with_security (sm : SecurityManager) (rm : LocalRuntimeManager)
  : LocalRuntimeManager :=
  {| securityManager := sm; mcpClient := mcpClient rm;
     fallbackToMocks := fallbackToMocks rm; toolsCalled := toolsCalled rm |}.

Definition with_client (c : Client.MCPClientManager) (rm : LocalRuntimeManager)
  : LocalRuntimeManager :=
  {| securityManager := securityManager rm; mcpClient := c;
     fallbackToMocks := fallbackToMocks rm; toolsCalled := toolsCalled rm |}.

Definition push_toolsCalled (full : string) (rm : LocalRuntimeManager)
  : LocalRuntimeManager :=
  {| securityManager := securityManager rm; mcpClient := mcpClient rm;
     fallbackToMocks := fallbackToMocks rm; toolsCalled := toolsCalled rm ++ [full] |}.

Definition on_security {A} (m : method SecurityManager A) : method LocalRuntimeManager A :=
  lift securityManager with_security m.

Definition on_client {A} (m : method Client.MCPClientManager A)
  : method LocalRuntimeManager A :=
  lift mcpClient with_client m.

(** The state the constructor leaves, for an execution that has called no
    tool yet. *)
Definition new : LocalRuntimeManager := {|
  securityManager := Security.new no_update;
  mcpClient := {|
    Client.servers := ∅;
    Client.config := {| Client.timeout := 30000; Client.retryAttempts := 3;
                        Client.fallbackToMock := true; Client.securityEnabled := true;
                        Client.connectionTimeout := 10000 |};
    Client.requestCounter := 0 |};
  fallbackToMocks := true;
  toolsCalled := []
|}.

(** The template literal [`Access denied: ${validation.reason}`]. *)
Definition access_denied (why : option string) : string :=
  "Access denied: " +:+ default "undefined" why.

(** The call to the server inside the inner [try] of the proxy. *)
Definition call_or_mock (wire : string → value → outcome value)
  (serverName toolName : string) (args : list value) (params : value) (now : Z)
  : method LocalRuntimeManager value :=
  mocks ←² gets fallbackToMocks;
  available ←² gets (λ rm, Client.isServerAvailable serverName (mcpClient rm));
  if (negb mocks && available)%bool then
    response ←² on_client
      (Client.sendRequest wire serverName "tools/call"
         (VObj [("name", VStr toolName); ("arguments", params)]) now);
    match formatMCPResponse response with
    | Some v => ret v
    | None => throw "TypeError: Cannot read properties of undefined"
    end
  else ret (createLegacyMockResponse serverName toolName args).

(** The asynchronous function that [createMCPToolProxy] returns for the
    property [toolName] of the proxy of [serverName]. *)
Definition createMCPToolProxy (wire : string → value → outcome value)
  (serverName : string) (securityContext : SecurityContext)
  (toolName : string) (args : list value) (now : Z)
  : method LocalRuntimeManager value :=
  modify (push_toolsCalled (serverName +:+ "." +:+ toolName)) ;;²
  try_catch
    (let params := convertArgsToParams toolName args in
     validation ←² on_security
       (validateToolCall securityContext serverName toolName params now);
     if negb (allowed validation) then
       throw (access_denied (validation_reason validation))
     else
       (on_security (trackRequestStart serverName) ;;²
        try_finally
          (call_or_mock wire serverName toolName args params now)
          (on_security (trackRequestEnd serverName))))
    (λ error,
       mocks ←² gets fallbackToMocks;
       if mocks then ret (createLegacyMockResponse serverName toolName args)
       else throw error).

(** [getDefaultPermissions] *)
Definition getDefaultPermissions : SecurityPermissions := {|
  fileSystem_read := ["./data"; "./config"];
  fileSystem_write := ["./temp"];
  fileSystem_execute := [];
  network_allowedHosts := ["localhost"; "127.0.0.1"];
  network_allowedPorts := [8001; 6379; 6333]
|}.

End Runtime.

(** ** Notions used in the statements *)

Module Statements.

Import Security Runtime.

(** A value [x] is stored under the key [k] somewhere inside [v], at any
    depth, through objects and arrays. *)
Inductive stored_under : value → string → value → Prop :=
| stored_here props k x :
    In (k, x) props → stored_under (VObj props) k x
| stored_in_property props k' v k x :
    In (k', v) props → stored_under v k x → stored_under (VObj props) k x
| stored_in_element items v k x :
    In v items → stored_under v k x → stored_under (VArr items) k x.

(** Every value stored under a sensitive key is the literal ["[REDACTED]"]. *)
Definition redacted (v : value) : Prop :=
  ∀ k x, stored_under v k x → is_sensitive k = true → x = REDACTED.

(** One operation of the security manager, from one state to the next. *)
Inductive step : SecurityManager → SecurityManager → Prop :=
| step_validate context serverName toolName params now st :
    step st (validateToolCall context serverName toolName params now st).2
| step_start serverName st :
    step st (trackRequestStart serverName st).2
| step_end serverName st :
    step st (trackRequestEnd serverName st).2
| step_policy updates st :
    step st (updatePolicy updates st).2.

(** The states of a security manager constructed with some policy. *)
Inductive reachable : SecurityManager → Prop :=
| reachable_new overrides : reachable (Security.new overrides)
| reachable_step st st' : reachable st → step st st' → reachable st'.

(** The security context of an execution with the default permissions. *)
Definition default_context : SecurityContext :=
  {| ctx_runtime := "typescript"; permissions := getDefaultPermissions |}.

(** A stdio exchange that is never answered. *)
Definition silent_wire : string → value → outcome value :=
  λ _ _, Throws "Request timeout".

(** [n] calls of [validateToolCall] in a row, at the same instant; the
    verdicts come out in order. *)
Fixpoint repeat_validate (n : nat) (context : SecurityContext)
  (serverName toolName : string) (params : value) (now : Z) (st : SecurityManager)
  : list (outcome SecurityValidation) * SecurityManager :=
  match n with
  | O => ([], st)
  | S k =>
      let (r, st1) := validateToolCall context serverName toolName params now st in
      let (rs, st2) := repeat_validate k context serverName toolName params now st1 in
      (r :: rs, st2)
  end.

(** The reply the specification describes: five fields, among them a true
    flag, the server, the tool, the submitted params and a note.  The names
    of the fields are left open. *)
Definition MockReply_shape (reply : value) (server tool : string) (submitted : value)
  : Prop :=
  ∃ props k_mocked k_server k_tool k_echo k_note note,
    reply = VObj props ∧
    NoDup [k_mocked; k_server; k_tool; k_echo; k_note] ∧
    In (k_mocked, VBool true) props ∧
    In (k_server, VStr server) props ∧
    In (k_tool, VStr tool) props ∧
    In (k_echo, submitted) props ∧
    In (k_note, note) props.











(** The tools [convertArgsToParams] has a case for. *)
Definition known_tool (toolName : string) : bool :=
  string_in toolName ["store_memory"; "recall"; "searchConversations"; "get_site_info"].

(** The audit-coverage property as the specification states it, for one
    call of [validateToolCall]. *)
Definition audit_coverage (context : SecurityContext) (serverName toolName : string)
  (params : value) (now : Z) (st : SecurityManager) : Prop :=
  auditLogging (policy st) = true →
  ∃ entry,
    auditLog (validateToolCall context serverName toolName params now st).2
      = auditLog st ++ [entry] ∧
    (result entry = success ∨ result entry = denied ∨ result entry = error) ∧
    (result entry ≠ denied → is_Some (duration entry)).

(** The checks of [validatePayload] other than the size limit pass. *)
Definition content_safe (p : SecurityPolicy) (params : value) : Prop :=
  sanitizeInputsEnabled (dataValidation p) = true →
  ∃ sanitized, sanitizeInputs params = Some sanitized ∧
               JSON.stringify sanitized = JSON.stringify params.

(** The length the specification compares with the limit: that of the
    encoded serialization, in bytes.  In UTF-8 a code unit below 128 takes
    one byte, and one from 128 to 255 takes two. *)
Fixpoint encoded_length (s : string) : Z :=
  match s with
  | EmptyString => 0
  | String c s' =>
      (if Nat.ltb (nat_of_ascii c) 128 then 1 else 2) + encoded_length s'
  end.

(** The size rule as the specification states it, for one payload. *)
Definition size_rule (p : SecurityPolicy) (params : value) : Prop :=
  ∀ serialized,
    JSON.stringify params = Some serialized →
    maxPayloadSize (dataValidation p) < encoded_length serialized →
    valid (validatePayload p params) = false.

(** The params [{query: 'é'}]: the letter is the code unit 233. *)
Definition accented : value :=
  VObj [("query", VStr (String (ascii_of_nat 233) EmptyString))].

(** The override of the payload limit, and the policy of a manager
    constructed with it. *)
Definition size_override (limit : Z) : PolicyUpdate := {|
  new_allowedServers := None;
  new_allowedTools := None;
  new_rateLimits := None;
  new_dataValidation := Some {|
    maxPayloadSize := limit;
    allowedDataTypes := ["string"; "number"; "boolean"; "object"; "array"];
    sanitizeInputsEnabled := true |};
  new_auditLogging := None
|}.

Definition policy_with_size (limit : Z) : SecurityPolicy :=
  merge default_policy (size_override limit).

(** The entries [getAuditLog] chooses from. *)
Definition selected (f : option AuditFilter) (st : SecurityManager)
  : list AuditLogEntry :=
  match f with
  | Some flt => List.filter (passes flt) (auditLog st)
  | None => auditLog st
  end.

(** The entry [validateToolCall] logs for a verdict. *)
Definition audit_entry (context : SecurityContext) (serverName toolName : string)
  (logged : value) (now : Z) (verdict : SecurityValidation) : AuditLogEntry := {|
  timestamp := now;
  runtime := ctx_runtime context;
  serverName := serverName;
  toolName := toolName;
  params := logged;
  result := if allowed verdict then success else denied;
  reason := validation_reason verdict;
  duration := None
|}.

(** Params with credentials at several depths, and the state after the
    call that logs them. *)
Definition credentials : value :=
  VObj [("content", VStr "x"); ("apiKey", VStr "sk-123");
        ("nested", VArr [VObj [("Password", VStr "hunter2")]])].

Definition state_with_credentials_logged : SecurityManager :=
  (validateToolCall default_context "automem" "store_memory" credentials 0
     (Security.new no_update)).2.

(** The state after [n] calls of [checkRateLimits] at the instant [now]. *)
Fixpoint after_checks (n : nat) (serverName : string) (now : Z)
  (st : SecurityManager) : SecurityManager :=
  match n with
  | O => st
  | S k => (checkRateLimits serverName now (after_checks k serverName now st)).2
  end.

(** A method that leaves [fallbackToMocks] as it was. *)
Definition keeps {A} (m : method LocalRuntimeManager A) : Prop :=
  ∀ rm, fallbackToMocks (m rm).2 = fallbackToMocks rm.

End Statements.

(** ** The pending requests of a stdio server ([mcp-client-manager.ts]) *)

Module Pending.

(** How the promise of a request is settled. *)
Inductive settlement :=
| Resolved (response : value)
| Rejected (message : string).

(** [server.requestQueue]: an item is known by the [id] of its request; its
    [resolve] and [reject] settle the promise of that request. *)
Definition queue : Type := list string.


(** [item.id === parsed.id], for the [id] read from the parsed frame. *)
Definition id_matches (parsed_id : value) (item : string) : bool :=
  match parsed_id with
  | VStr id => String.eqb item id
  | _ => false
  end.

(** [requestQueue.findIndex(item => item.id === parsed.id)] *)
Fixpoint findIndex (parsed_id : value) (q : queue) : option nat :=
  match q with
  | [] => None
  | item :: rest =>
      if id_matches parsed_id item then Some O
      else S <$> findIndex parsed_id rest
  end.

(** The template literal [`MCP Error: ${parsed.error.message}`], for a
    truthy [parsed.error]; [None] when the message cannot be converted to a
    string. *)
Definition error_message (err : value) : option string :=
  (λ text, "MCP Error: " +:+ text)
    <$> Runtime.toString (default VUndefined (Runtime.get_prop err "message")).

(** What is done with the item taken out of the queue: [None] when the
    template literal throws, which the [catch] of [handleStdioResponse]
    swallows, so that the promise is not settled. *)
Definition settle (frame : value) : option settlement :=
  let err := default VUndefined (Runtime.get_prop frame "error") in
  if JS.truthy err then Rejected <$> error_message err
  else Some (Resolved frame).

(** [handleStdioResponse], from the frame as [JSON.parse] returns it;
    [None] stands for a blank chunk or one that does not parse.  The result
    is the queue left and, when the promise of an item was settled, the id
    of the item with the way it is settled. *)
Definition handleStdioResponse (parsed : option value) (q : queue)
  : queue * option (string * settlement) :=
  match parsed with
  | None => (q, None)
  | Some frame =>
      match Runtime.get_prop frame "id" with
      | None => (q, None)
      | Some parsed_id =>
          match findIndex parsed_id q with
          | None => (q, None)
          | Some queueIndex =>
              match q !! queueIndex with
              | None => (q, None)
              | Some item =>
                  (delete queueIndex q, (λ how, (item, how)) <$> settle frame)
              end
          end
      end
  end.

End Pending.

(** ** Further notions used in the statements *)

Module More.

Import Security Runtime Statements.

(** The number of requests in flight recorded for a server. *)
Definition in_flight (serverName : string) (st : SecurityManager) : Z :=
  default 0 (concurrentRequests st !! serverName).

(** No recorded number of concurrent requests is negative. *)
Definition concurrency_nonneg (st : SecurityManager) : Prop :=
  ∀ serverName n, concurrentRequests st !! serverName = Some n → 0 ≤ n.

(** Every character of the string satisfies the test. *)
Fixpoint all_chars (test : ascii → bool) (s : string) : bool :=
  match s with
  | EmptyString => true
  | String c s' => (test c && all_chars test s')%bool
  end.

(** A property value that [sanitizeInputs] does not descend into: not an
    object, and an array only if none of its elements has type object. *)
Definition simple (v : value) : bool :=
  match v with
  | VObj _ => false
  | VArr items => forallb (λ item, negb (JS.is_object item)) items
  | _ => true
  end.

(** The literals of the deny-list of [sanitizeInputs]. *)
Definition denied_literals : list string :=
  ["javascript:"; "data:"; "vbscript:"; "onload"; "onerror"; "onclick"].

(** The string has none of the characters or prefixes a pattern of the
    deny-list needs: no [<], no [:], and no [on] in any case. *)
Definition harmless (s : string) : bool :=
  (all_chars (λ c, negb (Ascii.eqb c "<") && negb (Ascii.eqb c ":")) s
   && bool_decide (Regex.find_ci "on" s = None))%bool.

(** The length of a string once serialized, without its quotes. *)
Definition quoted_length (s : string) : nat := String.length (JSON.quote_body s).

(** A replacement either leaves a string as it is or makes its
    serialization shorter. *)
Definition shrinks (f : string → string) : Prop :=
  ∀ s, f s = s ∨ (quoted_length (f s) < quoted_length s)%nat.

(** A replacement makes the serialization of every string in which [pat]
    occurs, in any case, shorter. *)
Definition detects (pat : string) (f : string → string) : Prop :=
  ∀ s n, Regex.find_ci pat s = Some n →
         (quoted_length (f s) < quoted_length s)%nat.

(** What [sanitizeInputs] stores for a simple property value. *)
Definition sanitize_simple (v : value) : value :=
  match v with
  | VStr s => VStr (sanitize_string s)
  | _ => v
  end.

(** The serialization of a property, if it has one. *)
Definition piece (kv : string * value) : option string :=
  (λ sx, JSON.quote kv.1 +:+ ":" +:+ sx) <$> JSON.stringify kv.2.

(** A property with a simple value, as [sanitizeInputs] stores it. *)
Definition sanitized (kv : string * value) : string * value :=
  (kv.1, sanitize_simple kv.2).

(** A simple property value that is not a string with a pattern in it. *)
Definition harmless_value (v : value) : bool :=
  (simple v && match v with VStr s => harmless s | _ => true end)%bool.

(** The server names the sandbox of [executeNodeCode] binds its proxies to,
    by the name of the binding. *)
Definition sandbox_bindings : list (string * string) :=
  [("helpscout", "helpscout"); ("wordpress", "WordPressAPI");
   ("serena", "serena"); ("automem", "automem")].

(** A server that answers every request with the result [{ok: true}]. *)
Definition ok_wire : string → value → outcome value :=
  λ _ request,
    Returns (VObj [("jsonrpc", VStr "2.0");
                   ("id", default VUndefined (get_prop request "id"));
                   ("result", VObj [("ok", VBool true)])]).

(** A text block of a tool result. *)
Definition text_block (text : string) : value :=
  VObj [("type", VStr "text"); ("text", VStr text)].

(** The callback of [map] in [formatMCPResponse]: what is shown of an item
    of the content. *)
Definition shown (item : value) : option value :=
  ty ← get_prop item "type";
  if is_text ty then get_prop item "text" else Some item.

(** A value that cannot be converted to a string: an object with a property
    [toString] of its own, or an array with such a value in it, at any
    depth. *)
Fixpoint unprintable (v : value) : bool :=
  match v with
  | VObj props => JS.has_own "toString" props
  | VArr items => existsb unprintable items
  | _ => false
  end.

End More.

(** * Properties *)

Import Security Runtime Statements.
Import More.

(** ** Sanitization *)

(** C4. [sanitizeInputs] is not idempotent: each [replace] is one pass, so
    removing [data:] from [jadata:vascript:] leaves [javascript:], which
    only a second run removes. *)
Theorem C4_sanitizeInputs_not_idempotent :
  let x := VObj [("note", VStr "jadata:vascript:")] in
  sanitizeInputs x = Some (VObj [("note", VStr "javascript:")]) ∧
  (sanitizeInputs x ≫= sanitizeInputs) = Some (VObj [("note", VStr EmptyString)]) ∧
  (sanitizeInputs x ≫= sanitizeInputs) ≠ sanitizeInputs x.
Proof.
  cbv zeta. split; [reflexivity|]. split; [reflexivity|].
  vm_compute. discriminate.
Qed.

(** ** The tool proxy *)

Lemma on_security_fallback {A} (m : method SecurityManager A) rm :
  fallbackToMocks (on_security m rm).2 = fallbackToMocks rm.
Proof. unfold on_security, lift. by destruct (m (securityManager rm)). Qed.

Lemma on_security_run {A} (m : method SecurityManager A) rm :
  on_security m rm = ((m (securityManager rm)).1,
                      with_security (m (securityManager rm)).2 rm).
Proof. unfold on_security, lift. by destruct (m (securityManager rm)). Qed.

Lemma trackRequestStart_returns serverName st :
  (trackRequestStart serverName st).1 = Returns tt.
Proof. reflexivity. Qed.

Lemma trackRequestEnd_returns serverName st :
  (trackRequestEnd serverName st).1 = Returns tt.
Proof. reflexivity. Qed.

(** With [fallbackToMocks] set, the inner call is the legacy mock. *)
Lemma call_or_mock_fallback wire serverName toolName args params now rm :
  fallbackToMocks rm = true →
  call_or_mock wire serverName toolName args params now rm
  = (Returns (createLegacyMockResponse serverName toolName args), rm).
Proof.
  intros Hfb. unfold call_or_mock, bind, gets, ret. by rewrite Hfb.
Qed.

(** With [fallbackToMocks] set, the proxy answers every call with the legacy
    mock: the server is not contacted, and whatever is thrown inside the
    [try] block is caught and replaced by the mock. *)
Lemma proxy_fallback_always_mock wire serverName context toolName args now rm :
  fallbackToMocks rm = true →
  (createMCPToolProxy wire serverName context toolName args now rm).1
  = Returns (createLegacyMockResponse serverName toolName args).
Proof.
  intros Hfb.
  unfold createMCPToolProxy, bind at 1, modify.
  set (rm0 := push_toolsCalled _ rm).
  assert (Hfb0 : fallbackToMocks rm0 = true) by done.
  unfold try_catch, bind at 1.
  rewrite on_security_run.
  set (sm1 := (validateToolCall _ _ _ _ _ _).2).
  destruct (validateToolCall _ _ _ _ _ _).1 as [validation|e]; simpl.
  - destruct (allowed validation); simpl.
    + unfold bind at 1. rewrite on_security_run. simpl.
      unfold try_finally. rewrite call_or_mock_fallback by done.
      by rewrite on_security_run.
    + unfold throw, bind, gets, ret. simpl. by rewrite Hfb.
  - unfold bind, gets, ret. simpl. by rewrite Hfb.
Qed.

(** Without the fallback, a denied call throws the access-denied error. *)
Lemma proxy_denial_thrown_without_fallback
  wire serverName context toolName args now rm validation :
  fallbackToMocks rm = false →
  (validateToolCall context serverName toolName
     (convertArgsToParams toolName args) now (securityManager rm)).1
  = Returns validation →
  allowed validation = false →
  (createMCPToolProxy wire serverName context toolName args now rm).1
  = Throws (access_denied (validation_reason validation)).
Proof.
  intros Hfb Hval Hdenied.
  unfold createMCPToolProxy, bind at 1, modify.
  set (rm0 := push_toolsCalled _ rm).
  unfold try_catch, bind at 1.
  rewrite on_security_run.
  change (securityManager rm0) with (securityManager rm).
  rewrite Hval. simpl. rewrite Hdenied. simpl.
  unfold bind, gets, throw. simpl. by rewrite Hfb.
Qed.

(** C1. The proxy turns a denial into a mock reply.  On a fresh runtime
    manager ([fallbackToMocks] is [true], and nothing ever clears it) the
    call [serena.delete_everything()] is denied by the policy, as the audit
    entry records, and yet the caller gets the legacy mock, not an error. *)
Theorem C1_denied_call_is_mocked :
  let rm := Runtime.new in
  let call := createMCPToolProxy silent_wire "serena" default_context
                "delete_everything" [] 0 in
  (validateToolCall default_context "serena" "delete_everything"
     (convertArgsToParams "delete_everything" []) 0 (securityManager rm)).1
  = Returns (deny (Some "Tool delete_everything not allowed on server serena")) ∧
  (call rm).1
  = Returns (VObj [("mock", VBool true); ("server", VStr "serena");
                   ("method", VStr "delete_everything"); ("args", VArr [])]) ∧
  result <$> last (auditLog (securityManager (call rm).2)) = Some denied.
Proof.
  cbv zeta. split; [by vm_compute|]. split.
  - by rewrite proxy_fallback_always_mock.
  - by vm_compute.
Qed.

(** Methods that leave [fallbackToMocks] as it was. *)

Lemma keeps_ret {A} (a : A) : keeps (ret a).
Proof. by intros rm. Qed.

Lemma keeps_throw {A} e : keeps (@throw _ A e).
Proof. by intros rm. Qed.

Lemma keeps_gets {A} (f : LocalRuntimeManager → A) : keeps (gets f).
Proof. by intros rm. Qed.

Lemma keeps_bind {A B} (m : method LocalRuntimeManager A)
  (k : A → method LocalRuntimeManager B) :
  keeps m → (∀ a, keeps (k a)) → keeps (bind m k).
Proof.
  intros Hm Hk rm. unfold bind. specialize (Hm rm).
  destruct (m rm) as [[a|e] rm']; simpl in *; [|done].
  by rewrite Hk.
Qed.

Lemma keeps_try_catch {A} (m : method LocalRuntimeManager A) handler :
  keeps m → (∀ e, keeps (handler e)) → keeps (try_catch m handler).
Proof.
  intros Hm Hh rm. unfold try_catch. specialize (Hm rm).
  destruct (m rm) as [[a|e] rm']; simpl in *; [done|].
  by rewrite Hh.
Qed.

Lemma keeps_try_finally {A} (m : method LocalRuntimeManager A) cleanup :
  keeps m → keeps cleanup → keeps (try_finally m cleanup).
Proof.
  intros Hm Hc rm. unfold try_finally. specialize (Hm rm).
  destruct (m rm) as [r rm']; simpl in *. specialize (Hc rm').
  destruct (cleanup rm') as [[u|e] rm'']; simpl in *; congruence.
Qed.

Lemma keeps_on_security {A} (m : method SecurityManager A) : keeps (on_security m).
Proof. intros rm. apply on_security_fallback. Qed.

Lemma keeps_on_client {A} (m : method Client.MCPClientManager A) : keeps (on_client m).
Proof. intros rm. unfold on_client, lift. by destruct (m (mcpClient rm)). Qed.

Lemma keeps_push full : keeps (modify (push_toolsCalled full)).
Proof. by intros rm. Qed.

Create HintDb keeps_db.
#[export] Hint Resolve keeps_ret keeps_throw keeps_gets keeps_on_security
  keeps_on_client keeps_push : keeps_db.

Ltac keeps_step :=
  first [ apply keeps_bind; [|intros ?]
        | apply keeps_try_catch; [|intros ?]
        | apply keeps_try_finally
        | solve [auto with keeps_db]
        | match goal with |- keeps (if ?b then _ else _) => destruct b end
        | match goal with |- keeps (match ?x with _ => _ end) => destruct x end ].

(** A call through the proxy leaves [fallbackToMocks] as it was; the
    constructor sets it, so it is set in every call. *)
Lemma proxy_keeps_fallback wire serverName context toolName args now :
  keeps (createMCPToolProxy wire serverName context toolName args now).
Proof.
  unfold createMCPToolProxy, call_or_mock. repeat keeps_step.
Qed.

(** The inner call of the proxy, run on a state. *)
Lemma call_or_mock_run wire serverName toolName args params now rm :
  call_or_mock wire serverName toolName args params now rm
  = if (negb (fallbackToMocks rm)
        && Client.isServerAvailable serverName (mcpClient rm))%bool
    then
      let sent := Client.sendRequest wire serverName "tools/call"
                    (VObj [("name", VStr toolName); ("arguments", params)]) now
                    (mcpClient rm) in
      (match sent.1 with
       | Returns response =>
           match formatMCPResponse response with
           | Some v => Returns v
           | None => Throws "TypeError: Cannot read properties of undefined"
           end
       | Throws e => Throws e
       end, with_client sent.2 rm)
    else (Returns (createLegacyMockResponse serverName toolName args), rm).
Proof.
  unfold call_or_mock, bind at 1, gets at 1. unfold bind at 1, gets at 1.
  destruct (negb _ && _)%bool; [|done].
  unfold bind, on_client, lift. cbv zeta.
  destruct (Client.sendRequest _ _ _ _ _ _) as [[response|e] c];
    cbn [fst snd]; [|done].
  by destruct (formatMCPResponse response).
Qed.

Lemma call_or_mock_security wire serverName toolName args params now rm :
  securityManager (call_or_mock wire serverName toolName args params now rm).2
  = securityManager rm.
Proof. rewrite call_or_mock_run. by destruct (negb _ && _)%bool. Qed.

Lemma call_or_mock_fallbackToMocks wire serverName toolName args params now rm :
  fallbackToMocks (call_or_mock wire serverName toolName args params now rm).2
  = fallbackToMocks rm.
Proof. rewrite call_or_mock_run. by destruct (negb _ && _)%bool. Qed.

(** A call that validation refuses, or in which validation throws. *)
Lemma proxy_refused_run wire serverName context toolName args now rm message :
  let checked := validateToolCall context serverName toolName
                   (convertArgsToParams toolName args) now (securityManager rm) in
  checked.1 = Throws message ∨
  (∃ validation, checked.1 = Returns validation ∧ allowed validation = false ∧
                 message = access_denied (validation_reason validation)) →
  createMCPToolProxy wire serverName context toolName args now rm
  = (if fallbackToMocks rm
     then Returns (createLegacyMockResponse serverName toolName args)
     else Throws message,
     with_security checked.2 (push_toolsCalled (serverName +:+ "." +:+ toolName) rm)).
Proof.
  intros checked Hrefused.
  unfold createMCPToolProxy, bind at 1, modify.
  set (rm0 := push_toolsCalled _ rm).
  unfold try_catch, bind at 1.
  rewrite on_security_run.
  change (securityManager rm0) with (securityManager rm). fold checked.
  destruct Hrefused as [Hthrown|(validation & Hreturned & Hdenied & ->)].
  - rewrite Hthrown. unfold bind, gets, ret, throw. cbn [fst snd].
    change (fallbackToMocks (with_security _ rm0)) with (fallbackToMocks rm).
    by destruct (fallbackToMocks rm).
  - rewrite Hreturned, Hdenied. unfold bind, gets, ret, throw. cbn [fst snd negb].
    change (fallbackToMocks (with_security _ rm0)) with (fallbackToMocks rm).
    by destruct (fallbackToMocks rm).
Qed.

(** A call that validation allows. *)
Lemma proxy_allowed_run wire serverName context toolName args now rm validation :
  let params := convertArgsToParams toolName args in
  let checked := validateToolCall context serverName toolName params now
                   (securityManager rm) in
  let started := with_security (trackRequestStart serverName checked.2).2
                   (push_toolsCalled (serverName +:+ "." +:+ toolName) rm) in
  let inner := call_or_mock wire serverName toolName args params now started in
  checked.1 = Returns validation → allowed validation = true →
  createMCPToolProxy wire serverName context toolName args now rm
  = (match inner.1 with
     | Returns a => Returns a
     | Throws e =>
         if fallbackToMocks rm
         then Returns (createLegacyMockResponse serverName toolName args)
         else Throws e
     end,
     with_security (trackRequestEnd serverName (securityManager inner.2)).2 inner.2).
Proof.
  intros params checked started inner Hreturned Hallowed.
  unfold createMCPToolProxy, bind at 1, modify.
  set (rm0 := push_toolsCalled _ rm).
  unfold try_catch, bind at 1.
  rewrite on_security_run.
  change (securityManager rm0) with (securityManager rm).
  fold params. fold checked. rewrite Hreturned. cbn [fst snd]. rewrite Hallowed.
  cbn [negb]. unfold bind at 1. rewrite on_security_run.
  cbn [fst snd securityManager with_security]. rewrite trackRequestStart_returns.
  unfold try_finally.
  change (with_security _ (with_security checked.2 rm0)) with started.
  fold inner.
  pose proof (call_or_mock_fallbackToMocks wire serverName toolName args params now
                started) as Hfb. fold inner in Hfb.
  destruct inner as [[a|e] rm2]; rewrite on_security_run, trackRequestEnd_returns;
    cbn [fst snd] in *; [done|].
  unfold bind, gets, ret, throw. cbn [fst snd].
  change (fallbackToMocks (with_security _ rm2)) with (fallbackToMocks rm2).
  rewrite Hfb. change (fallbackToMocks started) with (fallbackToMocks rm).
  by destruct (fallbackToMocks rm).
Qed.

(** C8 as stated fails.  For the call [automem.analyze({x: 1})] on a fresh
    runtime manager (no server is ready, mocks are enabled), a call that the
    policy allows, the reply has four fields, and none of them holds the
    submitted params: [args] holds the positional arguments, an array. *)
Lemma C8_counterexample :
  (validateToolCall default_context "automem" "analyze"
     (convertArgsToParams "analyze" [VObj [("x", VNum 1)]]) 0
     (securityManager Runtime.new)).1 = Returns allow ∧
  ∃ reply,
    (createMCPToolProxy silent_wire "automem" default_context "analyze"
       [VObj [("x", VNum 1)]] 0 Runtime.new).1 = Returns reply ∧
    ¬ MockReply_shape reply "automem" "analyze" (VObj [("x", VNum 1)]).
Proof.
  split; [by vm_compute|]. eexists. split.
  - by rewrite proxy_fallback_always_mock.
  - intros (props & k1 & k2 & k3 & k4 & k5 & note & Heq & _ & _ & _ & _ & Hecho & _).
    injection Heq as <-. simpl in Hecho.
    destruct Hecho as [H|[H|[H|[H|[]]]]]; discriminate H.
Qed.

(** C8, amended.  When the server is not ready and [fallbackToMocks] is set,
    the proxy answers a call that the policy allows with the object
    [{mock: true, server, method, args}], where [method] is the tool name
    and [args] the positional arguments; [sendRequest], asked for a
    registered server that is not ready while [fallbackToMock] is set,
    resolves to a response whose [result] is [{mock: true, method, params,
    message}]. *)
Theorem C8_mock_replies wire serverName context toolName args now rm :
  (∀ validation,
     (validateToolCall context serverName toolName
        (convertArgsToParams toolName args) now (securityManager rm)).1
     = Returns validation →
     allowed validation = true →
     fallbackToMocks rm = true →
     Client.isServerAvailable serverName (mcpClient rm) = false →
     (createMCPToolProxy wire serverName context toolName args now rm).1
     = Returns (VObj [("mock", VBool true); ("server", VStr serverName);
                      ("method", VStr toolName); ("args", VArr args)])) ∧
  (∀ client server method_name params,
     Client.servers client !! serverName = Some server →
     Client.server_status server ≠ Client.ready →
     Client.fallbackToMock (Client.config client) = true →
     ∃ id,
       (Client.sendRequest wire serverName method_name params now client).1
       = Returns (VObj [("jsonrpc", VStr "2.0"); ("id", VStr id);
                        ("result",
                         VObj [("mock", VBool true); ("method", VStr method_name);
                               ("params", params);
                               ("message",
                                VStr "Mock response - MCP server not available")])])).
Proof.
  split.
  - intros validation Hreturned Hallowed Hmocks Hdown.
    rewrite (proxy_allowed_run _ _ _ _ _ _ _ validation) by done.
    cbn [fst]. rewrite call_or_mock_run.
    match goal with |- context [negb (fallbackToMocks ?r)] =>
      change (fallbackToMocks r) with (fallbackToMocks rm) end.
    by rewrite Hmocks.
  - intros client server method_name params Hsrv Hnot Hmock.
    unfold Client.sendRequest, bind at 1, gets. rewrite Hsrv.
    destruct (Client.server_status server) eqn:Hst; [|done| |];
      unfold bind, gets; rewrite Hmock; simpl; eauto.
Qed.

Lemma C8_mock_replies_witness :
  (validateToolCall default_context "automem" "analyze"
     (convertArgsToParams "analyze" [VObj [("x", VNum 1)]]) 0
     (securityManager Runtime.new)).1 = Returns allow ∧
  fallbackToMocks Runtime.new = true ∧
  Client.isServerAvailable "automem" (mcpClient Runtime.new) = false ∧
  (createMCPToolProxy silent_wire "automem" default_context "analyze"
     [VObj [("x", VNum 1)]] 0 Runtime.new).1
  = Returns (VObj [("mock", VBool true); ("server", VStr "automem");
                   ("method", VStr "analyze"); ("args", VArr [VObj [("x", VNum 1)]])]).
Proof.
  assert (Hallowed :
            (validateToolCall default_context "automem" "analyze"
               (convertArgsToParams "analyze" [VObj [("x", VNum 1)]]) 0
               (securityManager Runtime.new)).1 = Returns allow)
    by reflexivity.
  split; [exact Hallowed|]. split; [reflexivity|]. split; [reflexivity|].
  exact (proj1 (C8_mock_replies silent_wire "automem" default_context "analyze"
                  [VObj [("x", VNum 1)]] 0 Runtime.new)
           allow Hallowed eq_refl eq_refl eq_refl).
Defined.

(** ** Argument mapping *)

Lemma known_tool_false toolName :
  known_tool toolName = false →
  String.eqb toolName "store_memory" = false ∧
  String.eqb toolName "recall" = false ∧
  String.eqb toolName "searchConversations" = false ∧
  String.eqb toolName "get_site_info" = false.
Proof.
  unfold known_tool, string_in. simpl.
  destruct (String.eqb toolName "store_memory"); [done|].
  destruct (String.eqb toolName "recall"); [done|].
  destruct (String.eqb toolName "searchConversations"); [done|].
  by destruct (String.eqb toolName "get_site_info").
Qed.

(** C9 as stated fails: an importance of [0] is dropped by the guard
    [if (args[1])], and a single array argument of an unknown tool is passed
    through instead of being named [arg0]. *)
Lemma C9_counterexample :
  convertArgsToParams "store_memory" [VStr "note"; VNum 0; VArr [VStr "t"]]
  ≠ VObj [("content", VStr "note"); ("importance", VNum 0);
          ("tags", VArr [VStr "t"])] ∧
  convertArgsToParams "analyze" [VArr [VNum 1; VNum 2]]
  ≠ VObj [("arg0", VArr [VNum 1; VNum 2])].
Proof. split; vm_compute; discriminate. Qed.

(** C9, amended.  For [store_memory] the arguments at positions 0, 1 and 2
    that are truthy become the parameters [content], [importance] and [tags],
    in that order, and a falsy or missing argument leaves its parameter out.
    For a tool without a case of its own, a single argument of type object
    is returned as it is, and every other argument vector becomes
    [{arg0, arg1, ...}] in order. *)
Theorem C9_convertArgsToParams toolName args :
  (toolName = "store_memory" →
   convertArgsToParams toolName args
   = VObj (List.filter (λ kv : string * value, JS.truthy kv.2)
             [("content", arg 0 args); ("importance", arg 1 args);
              ("tags", arg 2 args)])) ∧
  (known_tool toolName = false →
   (∀ only, args = [only] → JS.is_object only = true →
            convertArgsToParams toolName args = only) ∧
   ((∀ only, args = [only] → JS.is_object only = false) →
    convertArgsToParams toolName args
    = VObj (imap (λ index a, ("arg" +:+ JS.index_key index, a)) args))).
Proof.
  split.
  - intros ->. unfold convertArgsToParams, set_if_truthy. simpl.
    by destruct (JS.truthy (arg 0 args)), (JS.truthy (arg 1 args)),
         (JS.truthy (arg 2 args)).
  - intros Hunknown.
    destruct (known_tool_false _ Hunknown) as (H1 & H2 & H3 & H4).
    unfold convertArgsToParams. rewrite H1, H2, H3, H4. split.
    + intros only -> Hobj. change (arg 0 [only]) with only. by rewrite Hobj.
    + intros Hnot. destruct args as [|a [|b rest]]; [done| |done].
      change (arg 0 [a]) with a. by rewrite (Hnot a eq_refl).
Qed.

Lemma C9_convertArgsToParams_witness :
  convertArgsToParams "store_memory" [VStr "note"; VNum 3; VArr [VStr "t"]]
  = VObj [("content", VStr "note"); ("importance", VNum 3);
          ("tags", VArr [VStr "t"])] ∧
  convertArgsToParams "analyze" [VObj [("x", VNum 1)]] = VObj [("x", VNum 1)] ∧
  convertArgsToParams "analyze" [VStr "a"; VNum 2]
  = VObj [("arg0", VStr "a"); ("arg1", VNum 2)].
Proof.
  split; [|split].
  - exact (proj1 (C9_convertArgsToParams "store_memory"
                    [VStr "note"; VNum 3; VArr [VStr "t"]]) eq_refl).
  - exact (proj1 (proj2 (C9_convertArgsToParams "analyze" [VObj [("x", VNum 1)]])
                    eq_refl) _ eq_refl eq_refl).
  - apply (proj2 (proj2 (C9_convertArgsToParams "analyze" [VStr "a"; VNum 2])
                    eq_refl)).
    intros only Heq. discriminate Heq.
Defined.

(** ** The audit log *)

Lemma slice_last_length {A} (n : nat) (l : list A) :
  length (slice_last n l) = Nat.min n (length l).
Proof. unfold slice_last. rewrite length_drop. lia. Qed.

Lemma slice_last_suffix {A} (n : nat) (l : list A) :
  ∃ older, l = older ++ slice_last n l.
Proof.
  exists (take (length l - n) l). unfold slice_last. by rewrite take_drop.
Qed.

Lemma slice_last_all {A} (n : nat) (l : list A) :
  (length l ≤ n)%nat → slice_last n l = l.
Proof.
  intros Hle. unfold slice_last.
  by replace (length l - n)%nat with 0%nat by lia.
Qed.

Lemma slice_last_In {A} (n : nat) (l : list A) x :
  In x (slice_last n l) → In x l.
Proof.
  intros Hin. destruct (slice_last_suffix n l) as [older Heq].
  rewrite Heq. apply in_or_app. by right.
Qed.

(** [logAuditEntry] keeps the last 1000 entries of the log with the new
    entry pushed. *)
Lemma logAuditEntry_log entry st :
  auditLog (logAuditEntry entry st).2 = slice_last 1000 (auditLog st ++ [entry]).
Proof.
  unfold logAuditEntry, modify, set_auditLog, slice_last. simpl.
  destruct (Nat.ltb 1000 (length (auditLog st ++ [entry]))) eqn:Hlt; [done|].
  apply Nat.ltb_ge in Hlt.
  by replace (length (auditLog st ++ [entry]) - 1000)%nat with 0%nat by lia.
Qed.

(** C10. [getAuditLog] returns the last entries of the log that pass the
    filter (all entries without a filter), at most 100 of them, in the order
    of the log; the log itself never holds more than 1000 entries after an
    entry is logged, namely the most recent ones. *)
Theorem C10_getAuditLog_last_100 (f : option AuditFilter) (st : SecurityManager) :
  length (getAuditLog f st) = Nat.min 100 (length (selected f st)) ∧
  (∃ older, selected f st = older ++ getAuditLog f st) ∧
  (∀ flt entry, f = Some flt → In entry (getAuditLog f st) →
                passes flt entry = true ∧ In entry (auditLog st)) ∧
  (f = None → ∀ entry, In entry (getAuditLog f st) → In entry (auditLog st)) ∧
  (∀ entry,
     length (auditLog (logAuditEntry entry st).2)
     = Nat.min 1000 (S (length (auditLog st))) ∧
     ∃ dropped, auditLog st ++ [entry]
                = dropped ++ auditLog (logAuditEntry entry st).2).
Proof.
  assert (Hget : getAuditLog f st = slice_last 100 (selected f st))
    by by destruct f.
  rewrite Hget. split; [apply slice_last_length|].
  split; [apply slice_last_suffix|]. split; [|split].
  - intros flt entry -> Hin. apply slice_last_In in Hin.
    simpl in Hin. apply filter_In in Hin. tauto.
  - intros -> entry Hin. by apply slice_last_In in Hin.
  - intros entry. rewrite logAuditEntry_log. split.
    + rewrite slice_last_length, length_app.
      change (length [entry]) with 1%nat. lia.
    + apply slice_last_suffix.
Qed.

Lemma C10_getAuditLog_last_100_witness :
  let flt := {| filter_serverName := Some "automem";
                filter_result := Some success;
                filter_since := None |} in
  let entry :=
    audit_entry default_context "automem" "store_memory"
      (VObj [("content", VStr "x"); ("apiKey", VStr "[REDACTED]");
             ("nested", VObj [("0", VObj [("Password", VStr "[REDACTED]")])])])
      0 allow in
  In entry (getAuditLog (Some flt) state_with_credentials_logged) ∧
  passes flt entry = true ∧
  In entry (auditLog state_with_credentials_logged).
Proof.
  cbv zeta.
  set (flt := {| filter_serverName := _; filter_result := _; filter_since := _ |}).
  set (entry := audit_entry _ _ _ _ _ _).
  assert (Hin : In entry (getAuditLog (Some flt) state_with_credentials_logged)).
  { left. reflexivity. }
  split; [exact Hin|].
  exact (proj1 (proj2 (proj2
           (C10_getAuditLog_last_100 (Some flt) state_with_credentials_logged)))
           flt entry eq_refl Hin).
Defined.

(** ** The ordered checks *)

Ltac run_method :=
  unfold bind, gets, modify, ret, throw, limits_field, cleanupRateLimitCounters;
  simpl.

(** [checkRateLimits] writes the rate counters and nothing else. *)
Lemma checkRateLimits_frame serverName now st :
  policy (checkRateLimits serverName now st).2 = policy st ∧
  auditLog (checkRateLimits serverName now st).2 = auditLog st ∧
  concurrentRequests (checkRateLimits serverName now st).2 = concurrentRequests st.
Proof.
  unfold checkRateLimits. run_method.
  destruct (rateLimitCounters st !! rate_key serverName now) as [c|];
    destruct (read_limits (policy st) serverName) as [l| |]; simpl;
    repeat case_match; simpl; done.
Qed.

(** It returns unless [limits] is [undefined]. *)
Lemma checkRateLimits_returns serverName now st :
  read_limits (policy st) serverName ≠ No_limits →
  ∃ within, (checkRateLimits serverName now st).1 = Returns within.
Proof.
  intros Hl. unfold checkRateLimits. run_method.
  destruct (read_limits (policy st) serverName) as [l| |]; [| |done];
    destruct (rateLimitCounters st !! rate_key serverName now) as [c|]; simpl;
    repeat case_match; simpl; eauto.
Qed.

(** It throws, whatever the counters, when [limits] is [undefined]. *)
Lemma checkRateLimits_throws serverName now st :
  read_limits (policy st) serverName = No_limits →
  ∃ e, (checkRateLimits serverName now st).1 = Throws e.
Proof.
  intros Hl. unfold checkRateLimits. run_method. rewrite Hl.
  destruct (rateLimitCounters st !! rate_key serverName now) as [c|]; simpl;
    eauto.
Qed.

(** [performSecurityChecks], run on a state. *)
Lemma performSecurityChecks_run context serverName toolName params now st :
  performSecurityChecks context serverName toolName params now st
  = let p := policy st in
    if negb (string_in serverName (allowedServers p)) then
      (Returns (deny (Some ("Server " +:+ serverName +:+ " not in allowed list"))), st)
    else if inherited (allowedTools p) serverName then
      (Throws "TypeError: allowedTools.includes is not a function", st)
    else if negb (tool_allowed p serverName toolName) then
      (Returns (deny (Some ("Tool " +:+ toolName +:+ " not allowed on server "
                            +:+ serverName))), st)
    else if negb (checkRuntimePermissions context serverName toolName) then
      (Returns (deny (Some "Insufficient runtime permissions")), st)
    else
      match checkRateLimits serverName now st with
      | (Returns within_limits, st1) =>
          if negb within_limits then
            (Returns (deny (Some "Rate limit exceeded")), st1)
          else if negb (valid (validatePayload p params)) then
            (Returns (deny (payload_reason (validatePayload p params))), st1)
          else (Returns allow, st1)
      | (Throws e, st1) => (Throws e, st1)
      end.
Proof.
  unfold performSecurityChecks. unfold bind at 1, gets. cbv zeta.
  destruct (negb (string_in _ _)); [done|].
  destruct (inherited _ _); [done|].
  destruct (negb (tool_allowed _ _ _)); [done|].
  destruct (negb (checkRuntimePermissions _ _ _)); [done|].
  unfold bind.
  destruct (checkRateLimits serverName now st) as [[within|e] st1]; [|done].
  destruct (negb within); [done|].
  by destruct (negb (valid _)).
Qed.

(** [performSecurityChecks] writes the rate counters and nothing else. *)
Lemma performSecurityChecks_frame context serverName toolName params now st :
  policy (performSecurityChecks context serverName toolName params now st).2
  = policy st ∧
  auditLog (performSecurityChecks context serverName toolName params now st).2
  = auditLog st ∧
  concurrentRequests (performSecurityChecks context serverName toolName params now st).2
  = concurrentRequests st.
Proof.
  rewrite performSecurityChecks_run. cbv zeta.
  destruct (negb (string_in _ _)); [done|].
  destruct (inherited _ _); [done|].
  destruct (negb (tool_allowed _ _ _)); [done|].
  destruct (negb (checkRuntimePermissions _ _ _)); [done|].
  pose proof (checkRateLimits_frame serverName now st) as Hframe.
  destruct (checkRateLimits serverName now st) as [[within|e] st1]; simpl in *;
    [|done].
  destruct (negb within); [done|].
  by destruct (negb (valid _)).
Qed.

(** It returns a verdict when the list of tools of the server is not read
    from [Object.prototype] and [limits] is not [undefined]. *)
Lemma performSecurityChecks_returns context serverName toolName params now st :
  inherited (allowedTools (policy st)) serverName = false →
  read_limits (policy st) serverName ≠ No_limits →
  ∃ verdict,
    (performSecurityChecks context serverName toolName params now st).1
    = Returns verdict.
Proof.
  intros Htools Hl. rewrite performSecurityChecks_run. cbv zeta. rewrite Htools.
  destruct (negb (string_in _ _)); [by eauto|].
  destruct (negb (tool_allowed _ _ _)); [by eauto|].
  destruct (negb (checkRuntimePermissions _ _ _)); [by eauto|].
  destruct (checkRateLimits_returns serverName now st Hl) as [within Hw].
  destruct (checkRateLimits serverName now st) as [r st1]; simpl in *. subst r.
  destruct (negb within); [by eauto|].
  destruct (negb (valid _)); by eauto.
Qed.




(** ** Payload validation *)

Lemma validatePayload_too_large p params serialized :
  JSON.stringify params = Some serialized →
  maxPayloadSize (dataValidation p) < Str.len serialized →
  validatePayload p params = payload_rejected "Payload exceeds maximum size limit".
Proof.
  intros Hser Hlt. unfold validatePayload, validatePayload_try.
  rewrite Hser. simpl.
  by destruct (Z.ltb_spec (maxPayloadSize (dataValidation p)) (Str.len serialized));
    [|lia].
Qed.

(** Within the size limit the payload is accepted exactly when it passes the
    content check. *)
Lemma validatePayload_within p params serialized :
  JSON.stringify params = Some serialized →
  Str.len serialized ≤ maxPayloadSize (dataValidation p) →
  validatePayload p params = payload_ok ↔ content_safe p params.
Proof.
  intros Hser Hle. unfold validatePayload, validatePayload_try, content_safe.
  rewrite Hser. simpl.
  destruct (Z.ltb_spec (maxPayloadSize (dataValidation p)) (Str.len serialized));
    [lia|].
  destruct (sanitizeInputsEnabled (dataValidation p)); [|done].
  destruct (sanitizeInputs params) as [sanitized|]; simpl.
  - destruct (bool_decide_reflect (JSON.stringify sanitized = Some serialized))
      as [Hsame|Hdiff].
    + split; [|done]. intros _ _. by exists sanitized.
    + split; [done|]. intros Hsafe.
      destruct (Hsafe eq_refl) as (sanitized' & [= <-] & Hsame). by destruct Hdiff.
  - split; [done|]. intros Hsafe. by destruct (Hsafe eq_refl) as (? & ? & _).
Qed.

Lemma validatePayload_size_reason p params serialized :
  JSON.stringify params = Some serialized →
  validatePayload p params = payload_rejected "Payload exceeds maximum size limit" →
  maxPayloadSize (dataValidation p) < Str.len serialized.
Proof.
  intros Hser. unfold validatePayload, validatePayload_try. rewrite Hser. simpl.
  destruct (Z.ltb_spec (maxPayloadSize (dataValidation p)) (Str.len serialized));
    [done|].
  destruct (sanitizeInputsEnabled (dataValidation p)); [|done].
  destruct (sanitizeInputs params) as [sanitized|]; simpl; [|done].
  by destruct (bool_decide (JSON.stringify sanitized = Some serialized)).
Qed.

Lemma validatePayload_valid p params :
  valid (validatePayload p params) = true → validatePayload p params = payload_ok.
Proof.
  unfold validatePayload, validatePayload_try.
  destruct (JSON.stringify params) as [serialized|]; simpl; [|done].
  destruct (maxPayloadSize (dataValidation p) <? Str.len serialized); [done|].
  destruct (sanitizeInputsEnabled (dataValidation p)); [|done].
  destruct (sanitizeInputs params) as [sanitized|]; simpl; [|done].
  by destruct (bool_decide (JSON.stringify sanitized = Some serialized)).
Qed.

(** A server that has a list of tools of its own does not read it from
    [Object.prototype]. *)
Lemma tool_allowed_own p serverName toolName :
  tool_allowed p serverName toolName = true →
  inherited (allowedTools p) serverName = false.
Proof.
  unfold tool_allowed, inherited.
  by destruct (allowedTools p !! serverName).
Qed.

(** The verdict of a call that reaches payload validation. *)
Lemma verdict_of_payload context serverName toolName params now st :
  string_in serverName (allowedServers (policy st)) = true →
  tool_allowed (policy st) serverName toolName = true →
  checkRuntimePermissions context serverName toolName = true →
  (checkRateLimits serverName now st).1 = Returns true →
  (performSecurityChecks context serverName toolName params now st).1
  = Returns (if valid (validatePayload (policy st) params) then allow
             else deny (payload_reason (validatePayload (policy st) params))).
Proof.
  intros Hserver Htool Hperm Hrate. rewrite performSecurityChecks_run. cbv zeta.
  rewrite Hserver, (tool_allowed_own _ _ _ Htool), Htool, Hperm. simpl.
  destruct (checkRateLimits serverName now st) as [r st1]. simpl in Hrate.
  subst r. simpl.
  by destruct (valid (validatePayload (policy st) params)).
Qed.

(** C7 as stated fails: the size that is compared with the limit is not the
    encoded length.  The serialization of [{query: 'é'}] has 13 code units
    and is 14 bytes long; with the limit at 13 the payload is accepted. *)
Lemma C7_counterexample :
  ¬ size_rule (policy_with_size 13) accented.
Proof.
  intros Hrule. specialize (Hrule _ eq_refl). vm_compute in Hrule.
  specialize (Hrule eq_refl). discriminate Hrule.
Qed.

(** C7, amended.  The payload is measured by the length of its
    serialization in code units ([serialized.length]).  For a call that
    passes the checks before payload validation, with params whose numbers
    are safe integers: the call is denied for its size exactly when the
    serialization is longer than [maxPayloadSize]; up to [maxPayloadSize],
    the bound included, it is allowed exactly when the payload passes the
    content check; at [maxPayloadSize + 1] it is denied for its size. *)
Theorem C7_payload_size_boundary
  context serverName toolName params serialized now st :
  string_in serverName (allowedServers (policy st)) = true →
  tool_allowed (policy st) serverName toolName = true →
  checkRuntimePermissions context serverName toolName = true →
  (checkRateLimits serverName now st).1 = Returns true →
  JS.safe params = true →
  JSON.stringify params = Some serialized →
  let limit := maxPayloadSize (dataValidation (policy st)) in
  let verdict :=
    (performSecurityChecks context serverName toolName params now st).1 in
  (limit < Str.len serialized ↔
   verdict = Returns (deny (Some "Payload exceeds maximum size limit"))) ∧
  (Str.len serialized ≤ limit →
   (verdict = Returns allow ↔ content_safe (policy st) params)) ∧
  (Str.len serialized = limit → content_safe (policy st) params →
   verdict = Returns allow) ∧
  (Str.len serialized = limit + 1 →
   verdict = Returns (deny (Some "Payload exceeds maximum size limit"))).
Proof.
  intros Hserver Htool Hperm Hrate _ Hser limit verdict.
  assert (Hverdict : verdict
            = Returns (if valid (validatePayload (policy st) params) then allow
                       else deny (payload_reason (validatePayload (policy st) params))))
    by by apply verdict_of_payload.
  assert (Hle : Str.len serialized ≤ limit →
                (verdict = Returns allow ↔ content_safe (policy st) params)).
  { intros Hle. rewrite Hverdict.
    rewrite <- (validatePayload_within _ _ _ Hser Hle). split.
    - destruct (valid (validatePayload (policy st) params)) eqn:Hvalid;
        [intros _; by apply validatePayload_valid|intros Heq; discriminate Heq].
    - by intros ->. }
  assert (Hgt : limit < Str.len serialized →
                verdict = Returns (deny (Some "Payload exceeds maximum size limit"))).
  { intros Hgt. rewrite Hverdict.
    by rewrite (validatePayload_too_large _ _ _ Hser Hgt). }
  split; [|split; [|split]].
  - split; [done|]. rewrite Hverdict. intros Hdeny.
    apply (validatePayload_size_reason (policy st) params serialized Hser).
    destruct (validatePayload (policy st) params) as [[] why]; simpl in *;
      [discriminate Hdeny|]. by injection Hdeny as ->.
  - done.
  - intros Heq Hsafe. apply Hle; [lia|done].
  - intros Heq. apply Hgt. lia.
Qed.

Lemma C7_payload_size_boundary_witness :
  Str.len (default EmptyString (JSON.stringify accented)) = 13 ∧
  encoded_length (default EmptyString (JSON.stringify accented)) = 14 ∧
  (performSecurityChecks default_context "automem" "recall" accented 0
     (Security.new (size_override 13))).1 = Returns allow ∧
  (performSecurityChecks default_context "automem" "recall" accented 0
     (Security.new (size_override 12))).1
  = Returns (deny (Some "Payload exceeds maximum size limit")).
Proof.
  split; [reflexivity|]. split; [reflexivity|].
  set (serialized := default EmptyString (JSON.stringify accented)).
  assert (Hsafe : ∀ limit, content_safe (policy_with_size limit) accented).
  { intros limit _. eexists. split; reflexivity. }
  split.
  - exact (proj1 (proj2 (proj2
             (C7_payload_size_boundary default_context "automem" "recall"
                accented serialized 0 (Security.new (size_override 13))
                eq_refl eq_refl eq_refl eq_refl eq_refl eq_refl))) eq_refl
             (Hsafe 13)).
  - exact (proj2 (proj2 (proj2
             (C7_payload_size_boundary default_context "automem" "recall"
                accented serialized 0 (Security.new (size_override 12))
                eq_refl eq_refl eq_refl eq_refl eq_refl eq_refl))) eq_refl).
Defined.

(** ** Redaction *)

Lemma mapM_In {A B} (f : A → option B) l l' y :
  mapM f l = Some l' → In y l' → ∃ x, In x l ∧ f x = Some y.
Proof.
  revert l'. induction l as [|a l IH]; intros l' Hmap Hin; simpl in Hmap.
  - injection Hmap as <-. destruct Hin.
  - destruct (f a) as [b|] eqn:Hfa; [|discriminate].
    destruct (mapM f l) as [bs|]; [|discriminate].
    injection Hmap as <-. destruct Hin as [<-|Hin].
    + exists a. split; [by left|done].
    + destruct (IH bs eq_refl Hin) as (x & Hx & Hfx).
      exists x. split; [by right|done].
Qed.

Lemma mapM_is_Some {A B} (f : A → option B) l :
  (∀ x, In x l → is_Some (f x)) → is_Some (mapM f l).
Proof.
  induction l as [|a l IH]; intros Hall; simpl; [by eexists|].
  destruct (Hall a (or_introl eq_refl)) as [b ->].
  destruct IH as [bs ->]; [|by eexists].
  intros x Hx. apply Hall. by right.
Qed.

Lemma mapM_props_In {A B} (f : string → A → option B) l l' k y :
  mapM_props f l = Some l' → In (k, y) l' → ∃ x, In (k, x) l ∧ f k x = Some y.
Proof.
  intros Hmap Hin. unfold mapM_props in Hmap.
  destruct (mapM_In _ _ _ _ Hmap Hin) as ([k' x] & Hx & Hfx). simpl in Hfx.
  destruct (f k' x) as [y'|] eqn:Hf; [|discriminate].
  injection Hfx as -> ->. by exists x.
Qed.

Lemma mapM_props_is_Some {A B} (f : string → A → option B) l :
  (∀ k x, In (k, x) l → is_Some (f k x)) → is_Some (mapM_props f l).
Proof.
  intros Hall. apply mapM_is_Some. intros [k x] Hin.
  destruct (Hall k x Hin) as [y Hy]. simpl. rewrite Hy. by eexists.
Qed.

Lemma mapM_indexed_In {A B} (f : string → A → option B) i l l' k y :
  mapM_indexed f i l = Some l' → In (k, y) l' → ∃ x, In x l ∧ f k x = Some y.
Proof.
  revert i l'. induction l as [|a l IH]; intros i l' Hmap Hin; simpl in Hmap.
  - injection Hmap as <-. destruct Hin.
  - destruct (f (JS.index_key i) a) as [b|] eqn:Hfa; [|discriminate].
    destruct (mapM_indexed f (S i) l) as [bs|] eqn:Hrest; [|discriminate].
    injection Hmap as <-. destruct Hin as [Heq|Hin].
    + injection Heq as <- <-. exists a. split; [by left|done].
    + destruct (IH _ _ Hrest Hin) as (x & Hx & Hfx).
      exists x. split; [by right|done].
Qed.

Lemma mapM_indexed_is_Some {A B} (f : string → A → option B) i l :
  (∀ k x, In x l → is_Some (f k x)) → is_Some (mapM_indexed f i l).
Proof.
  revert i. induction l as [|a l IH]; intros i Hall; simpl; [by eexists|].
  destruct (Hall (JS.index_key i) a (or_introl eq_refl)) as [b ->].
  destruct (IH (S i)) as [bs ->]; [|by eexists].
  intros k x Hx. apply Hall. by right.
Qed.

Lemma assigned_In {A} (entries : list (string * A)) kv :
  In kv (JS.assigned entries) → In kv entries.
Proof. unfold JS.assigned. intros Hin. by apply filter_In in Hin as [? _]. Qed.

(** Nothing is stored inside a value that is neither an object nor an array. *)
Lemma redacted_leaf v :
  (∀ items, v ≠ VArr items) → (∀ props, v ≠ VObj props) → redacted v.
Proof.
  intros Harr Hobj k x Hst.
  inversion Hst; subst; exfalso;
    [by eapply Hobj | by eapply Hobj | by eapply Harr].
Qed.

Lemma redacted_REDACTED : redacted REDACTED.
Proof. by apply redacted_leaf. Qed.

Lemma redacted_object entries :
  (∀ k y, In (k, y) entries →
          (is_sensitive k = true → y = REDACTED) ∧ redacted y) →
  redacted (VObj entries).
Proof.
  intros Hall k x Hst Hsens. inversion Hst as [? ? ? Hin|? k' v ? ? Hin Hdeep|]; subst.
  - by apply (Hall k x Hin).
  - by apply (proj2 (Hall k' v Hin) k x).
Qed.

(** What one turn of the loop of [sanitizeForLogging] stores. *)
Lemma redact_value_redacted self k v out :
  (∀ out', self v = Some out' → redacted out') →
  redact_value self k v = Some out →
  (is_sensitive k = true → out = REDACTED) ∧ redacted out.
Proof.
  intros Hself. unfold redact_value.
  destruct (is_sensitive k) eqn:Hsens.
  - intros [= <-]. split; [done|apply redacted_REDACTED].
  - intros Hout. split; [done|].
    destruct v; try (injection Hout as <-; by apply redacted_leaf); by apply Hself.
Qed.

Lemma chars_are_strings s x : In x (JS.chars s) → ∃ c, x = VStr c.
Proof.
  induction s as [|a s IH]; simpl; [done|].
  intros [<-|Hin]; [by eexists|by apply IH].
Qed.

Lemma sanitizeForLogging_redacted params out :
  sanitizeForLogging params = Some out → redacted out.
Proof.
  revert out. induction params as [| | | |s|items IH|props IH] using value_ind;
    intros out Hout; simpl in Hout; try discriminate.
  - injection Hout as <-. apply redacted_object. intros k y [].
  - injection Hout as <-. apply redacted_object. intros k y [].
  - destruct (mapM_indexed _ _ _) as [entries|] eqn:Hmap; [|discriminate].
    injection Hout as <-. apply redacted_object. intros k y Hin.
    destruct (mapM_indexed_In _ _ _ _ _ _ Hmap Hin) as (x & Hxin & Hx).
    apply (redact_value_redacted Some k x); [|done].
    intros out' [= <-]. destruct (chars_are_strings _ _ Hxin) as [c ->].
    by apply redacted_leaf.
  - destruct (mapM_indexed _ _ _) as [entries|] eqn:Hmap; [|discriminate].
    injection Hout as <-. apply redacted_object. intros k y Hin.
    destruct (mapM_indexed_In _ _ _ _ _ _ Hmap Hin) as (x & Hxin & Hx).
    apply (redact_value_redacted sanitizeForLogging k x); [|done].
    apply (proj1 (List.Forall_forall _ _) IH x Hxin).
  - destruct (mapM_props _ _) as [entries|] eqn:Hmap; [|discriminate].
    injection Hout as <-. apply redacted_object. intros k y Hin.
    apply assigned_In in Hin.
    destruct (mapM_props_In _ _ _ _ _ Hmap Hin) as (x & Hxin & Hx).
    apply (redact_value_redacted sanitizeForLogging k x); [|done].
    apply (proj1 (List.Forall_forall _ _) IH (k, x) Hxin).
Qed.

Lemma sanitizeForLogging_is_Some params :
  params ≠ VNull → params ≠ VUndefined → is_Some (sanitizeForLogging params).
Proof.
  induction params as [| | | |s|items IH|props IH] using value_ind;
    intros Hnull Hundef; simpl; try done; try by eexists.
  - destruct (mapM_indexed_is_Some (redact_value Some) 0 (JS.chars s)) as [es ->];
      [|by eexists].
    intros k x _. unfold redact_value.
    destruct (is_sensitive k); [by eexists|]. destruct x; by eexists.
  - destruct (mapM_indexed_is_Some (redact_value sanitizeForLogging) 0 items)
      as [es ->]; [|by eexists].
    intros k x Hin. unfold redact_value.
    destruct (is_sensitive k); [by eexists|].
    pose proof (proj1 (List.Forall_forall _ _) IH x Hin) as IHx.
    destruct x; try (by eexists); by apply IHx.
  - destruct (mapM_props_is_Some (redact_value sanitizeForLogging) props)
      as [es ->]; [|by eexists].
    intros k x Hin. unfold redact_value.
    destruct (is_sensitive k); [by eexists|].
    pose proof (proj1 (List.Forall_forall _ _) IH (k, x) Hin) as IHx.
    destruct x; try (by eexists); by apply IHx.
Qed.

(** A key that is one of the sensitive words, in any case, is sensitive. *)
Lemma is_sensitive_exact k :
  In (Str.toLowerCase k) sensitiveKeys → is_sensitive k = true.
Proof.
  unfold is_sensitive. simpl In.
  intros [H|[H|[H|[H|[H|[H|[]]]]]]]; rewrite <- H; reflexivity.
Qed.

(** [validateToolCall], run on a state. *)
Lemma validateToolCall_run context serverName toolName params now st :
  validateToolCall context serverName toolName params now st
  = match performSecurityChecks context serverName toolName params now st with
    | (Returns verdict, st1) =>
        if auditLogging (policy st1) then
          match sanitizeForLogging params with
          | Some logged =>
              (Returns verdict,
               (logAuditEntry
                  (audit_entry context serverName toolName logged now verdict) st1).2)
          | None =>
              (Throws "TypeError: Cannot convert undefined or null to object", st1)
          end
        else (Returns verdict, st1)
    | (Throws e, st1) => (Throws e, st1)
    end.
Proof.
  unfold validateToolCall, bind.
  destruct (performSecurityChecks _ _ _ _ _ _) as [[verdict|e] st1]; [|done].
  unfold gets. destruct (auditLogging (policy st1)); [|done].
  by destruct (sanitizeForLogging params).
Qed.

(** The invariant of the audit log: the params of every entry are redacted. *)
Lemma validateToolCall_keeps_redacted context serverName toolName params now st :
  Forall (λ entry, redacted (Security.params entry)) (auditLog st) →
  Forall (λ entry, redacted (Security.params entry))
    (auditLog (validateToolCall context serverName toolName params now st).2).
Proof.
  intros Hinv. rewrite validateToolCall_run.
  pose proof (performSecurityChecks_frame context serverName toolName params now st)
    as (_ & Hlog & _).
  destruct (performSecurityChecks _ _ _ _ _ _) as [[verdict|e] st1]; simpl in Hlog;
    [|cbn [snd]; by rewrite Hlog].
  destruct (auditLogging (policy st1)); [|cbn [snd]; by rewrite Hlog].
  destruct (sanitizeForLogging params) as [logged|] eqn:Hlogged;
    [|cbn [snd]; by rewrite Hlog].
  cbn [snd]. rewrite logAuditEntry_log, Hlog. unfold slice_last.
  apply Forall_drop, Forall_app. split; [done|].
  apply Forall_cons. split; [|done]. simpl.
  by apply (sanitizeForLogging_redacted params).
Qed.

Lemma reachable_redacted st :
  reachable st → Forall (λ entry, redacted (Security.params entry)) (auditLog st).
Proof.
  induction 1 as [overrides|st st' _ IH Hstep]; [by constructor|].
  destruct Hstep; [by apply validateToolCall_keeps_redacted|done|done|done].
Qed.

(** C3. In every state the security manager can reach, every entry of the
    audit log holds the literal ["[REDACTED]"] under every key, at any depth
    of its params, whose lower-cased name contains one of the sensitive
    words; a key that is one of these words in any case is such a key. *)
Theorem C3_audit_params_redacted st entry k x :
  reachable st →
  In entry (auditLog st) →
  stored_under (Security.params entry) k x →
  (is_sensitive k = true ∨ In (Str.toLowerCase k) sensitiveKeys) →
  x = VStr "[REDACTED]".
Proof.
  intros Hreach Hin Hstored Hsens.
  assert (Hk : is_sensitive k = true).
  { destruct Hsens as [|Hexact]; [done|by apply is_sensitive_exact]. }
  pose proof (reachable_redacted st Hreach) as Hinv.
  apply (proj1 (List.Forall_forall _ _) Hinv entry Hin k x Hstored Hk).
Qed.

Lemma C3_audit_params_redacted_witness :
  let logged :=
    VObj [("content", VStr "x"); ("apiKey", VStr "[REDACTED]");
          ("nested", VObj [("0", VObj [("Password", VStr "[REDACTED]")])])] in
  let entry := audit_entry default_context "automem" "store_memory" logged 0 allow in
  reachable state_with_credentials_logged ∧
  In entry (auditLog state_with_credentials_logged) ∧
  stored_under (Security.params entry) "Password" (VStr "[REDACTED]") ∧
  is_sensitive "Password" = true ∧
  VStr "[REDACTED]" = VStr "[REDACTED]".
Proof.
  cbv zeta.
  set (logged := VObj _).
  set (entry := audit_entry _ _ _ _ _ _).
  assert (Hreach : reachable state_with_credentials_logged).
  { apply (reachable_step (Security.new no_update)); [constructor|].
    apply step_validate. }
  assert (Hin : In entry (auditLog state_with_credentials_logged)).
  { left. reflexivity. }
  assert (Hstored : stored_under (Security.params entry) "Password"
                      (VStr "[REDACTED]")).
  { apply (stored_in_property _ "nested"
             (VObj [("0", VObj [("Password", VStr "[REDACTED]")])])).
    - simpl. tauto.
    - apply (stored_in_property _ "0" (VObj [("Password", VStr "[REDACTED]")])).
      + simpl. tauto.
      + apply stored_here. simpl. tauto. }
  split; [exact Hreach|]. split; [exact Hin|]. split; [exact Hstored|].
  split; [reflexivity|].
  exact (C3_audit_params_redacted state_with_credentials_logged entry "Password"
           (VStr "[REDACTED]") Hreach Hin Hstored (or_introl eq_refl)).
Defined.

(** ** Audit coverage *)

(** C2 as stated fails: the entry logged for an allowed call has the
    outcome [success] and no duration. *)
Lemma C2_counterexample :
  ¬ audit_coverage default_context "automem" "recall"
      (VObj [("query", VStr "x")]) 0 (Security.new no_update).
Proof.
  intros Hclaim. destruct (Hclaim eq_refl) as (entry & Hlog & _ & Hduration).
  vm_compute in Hlog. injection Hlog as <-.
  destruct Hduration as [d Hd]; [discriminate|discriminate Hd].
Qed.

(** C2, amended.  With audit logging enabled, a call of [validateToolCall]
    that returns has pushed exactly one entry on the log (which then keeps
    its last 1000 entries).  The outcome of the entry is [success] when the
    call is allowed and [denied] when it is not, never [error], and its
    duration is not set, whatever the outcome.  The call returns when the
    params are neither [null] nor [undefined], the list of tools of the
    server is not read from [Object.prototype], and the limits of the rate
    check are not [undefined]. *)
Theorem C2_one_audit_entry_per_call context serverName toolName params now st :
  auditLogging (policy st) = true →
  (∀ verdict,
     (validateToolCall context serverName toolName params now st).1
     = Returns verdict →
     ∃ entry,
       auditLog (validateToolCall context serverName toolName params now st).2
       = slice_last 1000 (auditLog st ++ [entry]) ∧
       ((length (auditLog st) < 1000)%nat →
        auditLog (validateToolCall context serverName toolName params now st).2
        = auditLog st ++ [entry]) ∧
       Security.serverName entry = serverName ∧
       Security.toolName entry = toolName ∧
       Some (Security.params entry) = sanitizeForLogging params ∧
       result entry = (if allowed verdict then success else denied) ∧
       result entry ≠ error ∧
       duration entry = None) ∧
  (params ≠ VNull → params ≠ VUndefined →
   inherited (allowedTools (policy st)) serverName = false →
   read_limits (policy st) serverName ≠ No_limits →
   ∃ verdict,
     (validateToolCall context serverName toolName params now st).1
     = Returns verdict).
Proof.
  intros Hlogging.
  rewrite validateToolCall_run.
  pose proof (performSecurityChecks_frame context serverName toolName params now st)
    as (Hpolicy & Hlog & _).
  split.
  - intros verdict.
    destruct (performSecurityChecks _ _ _ _ _ _) as [[checked|e] st1];
      cbn [fst snd] in *; [|done].
    rewrite Hpolicy, Hlogging.
    destruct (sanitizeForLogging params) as [logged|]; [|done].
    cbn [fst snd]. intros [= ->].
    exists (audit_entry context serverName toolName logged now verdict).
    rewrite logAuditEntry_log, Hlog.
    split; [done|]. split.
    { intros Hroom. apply slice_last_all. rewrite length_app. simpl. lia. }
    repeat split; simpl; try done. by destruct (allowed verdict).
  - intros Hnull Hundef Htools Hlimits.
    destruct (performSecurityChecks_returns context serverName toolName params now st
                Htools Hlimits) as [verdict Hverdict].
    destruct (performSecurityChecks _ _ _ _ _ _) as [r st1]. cbn [fst snd] in *.
    subst r. rewrite Hpolicy, Hlogging.
    destruct (sanitizeForLogging_is_Some params Hnull Hundef) as [logged ->].
    by exists verdict.
Qed.

Lemma C2_one_audit_entry_per_call_witness :
  ∃ verdict entry,
    (validateToolCall default_context "automem" "recall"
       (VObj [("query", VStr "x")]) 0 (Security.new no_update)).1
    = Returns verdict ∧
    auditLog (validateToolCall default_context "automem" "recall"
                (VObj [("query", VStr "x")]) 0 (Security.new no_update)).2
    = [entry] ∧
    result entry = (if allowed verdict then success else denied) ∧
    duration entry = None.
Proof.
  destruct (C2_one_audit_entry_per_call default_context "automem" "recall"
              (VObj [("query", VStr "x")]) 0 (Security.new no_update) eq_refl)
    as [Hentry Hreturns].
  destruct Hreturns as [verdict Hret].
  - discriminate.
  - discriminate.
  - reflexivity.
  - discriminate.
  - destruct (Hentry verdict Hret) as (entry & _ & Hlog & _ & _ & _ & Hres & _ & Hdur).
    exists verdict, entry. split; [exact Hret|]. split; [|by split].
    apply Hlog. simpl. lia.
Defined.

(** ** Rate limits *)

(** The first request of a server in a minute for which no counter is
    stored opens a counter at 1. *)
Lemma checkRateLimits_new_window serverName now st l :
  read_limits (policy st) serverName = Limits l →
  rateLimitCounters st !! rate_key serverName now = None →
  default 0 (concurrentRequests st !! serverName) < maxConcurrent l →
  (checkRateLimits serverName now st).1 = Returns true ∧
  rateLimitCounters (checkRateLimits serverName now st).2 !! rate_key serverName now
  = Some {| count := 1; window := now |}.
Proof.
  intros Hl Hnone Hconc. unfold checkRateLimits. run_method.
  rewrite Hl, Hnone. simpl.
  destruct (Z.leb_spec (maxConcurrent l)
              (default 0 (concurrentRequests st !! serverName))); [lia|].
  simpl. split; [done|].
  apply map_lookup_filter_Some. split; [apply lookup_insert_eq|]. simpl. lia.
Qed.

(** A request below the limit is counted. *)
Lemma checkRateLimits_counts serverName now st l c :
  read_limits (policy st) serverName = Limits l →
  rateLimitCounters st !! rate_key serverName now = Some c →
  count c < requestsPerMinute l →
  default 0 (concurrentRequests st !! serverName) < maxConcurrent l →
  now - 2 * 60 * 1000 ≤ window c →
  (checkRateLimits serverName now st).1 = Returns true ∧
  rateLimitCounters (checkRateLimits serverName now st).2 !! rate_key serverName now
  = Some {| count := count c + 1; window := window c |}.
Proof.
  intros Hl Hc Hcount Hconc Hfresh. unfold checkRateLimits. run_method.
  rewrite Hl, Hc. simpl.
  destruct (Z.leb_spec (requestsPerMinute l) (count c)); [lia|]. simpl.
  destruct (Z.leb_spec (maxConcurrent l)
              (default 0 (concurrentRequests st !! serverName))); [lia|].
  simpl. split; [done|].
  apply map_lookup_filter_Some. split; [apply lookup_insert_eq|]. simpl. lia.
Qed.

(** A request at the limit is denied, and nothing is written: neither the
    counter of the minute nor the number of concurrent requests. *)
Lemma checkRateLimits_exhausted serverName now st l c :
  read_limits (policy st) serverName = Limits l →
  rateLimitCounters st !! rate_key serverName now = Some c →
  requestsPerMinute l ≤ count c →
  checkRateLimits serverName now st = (Returns false, st).
Proof.
  intros Hl Hc Hcount. unfold checkRateLimits. run_method.
  rewrite Hl, Hc. simpl.
  by destruct (Z.leb_spec (requestsPerMinute l) (count c)); [|lia].
Qed.

Lemma after_checks_counter serverName now st l k :
  read_limits (policy st) serverName = Limits l →
  rateLimitCounters st !! rate_key serverName now = None →
  default 0 (concurrentRequests st !! serverName) < maxConcurrent l →
  Z.of_nat k ≤ requestsPerMinute l →
  let st' := after_checks k serverName now st in
  policy st' = policy st ∧
  concurrentRequests st' = concurrentRequests st ∧
  rateLimitCounters st' !! rate_key serverName now
  = match k with
    | O => None
    | S _ => Some {| count := Z.of_nat k; window := now |}
    end.
Proof.
  intros Hl Hnone Hconc. induction k as [|k IH]; intros Hk; [done|].
  destruct IH as (Hpol & Hcon & Hcounter); [lia|].
  cbn [after_checks]. cbv zeta.
  pose proof (checkRateLimits_frame serverName now (after_checks k serverName now st))
    as (Hpol' & _ & Hcon').
  rewrite Hpol', Hcon', Hpol, Hcon. split; [done|]. split; [done|].
  destruct k as [|k].
  - by apply (checkRateLimits_new_window serverName now st l).
  - destruct (checkRateLimits_counts serverName now
                (after_checks (S k) serverName now st) l
                {| count := Z.of_nat (S k); window := now |}) as [_ ->];
      rewrite ?Hpol, ?Hcon; simpl; try done; try lia.
    do 2 f_equal. lia.
Qed.

(** Within one minute, starting without a counter for it and with free
    concurrency, under a limit of N >= 1 requests per minute: the requests
    up to the N-th pass the check, and the next one is denied without any
    write to the state. *)
Lemma rate_limit_window serverName now st l :
  read_limits (policy st) serverName = Limits l →
  rateLimitCounters st !! rate_key serverName now = None →
  default 0 (concurrentRequests st !! serverName) < maxConcurrent l →
  1 ≤ requestsPerMinute l →
  (∀ k, Z.of_nat k < requestsPerMinute l →
        (checkRateLimits serverName now (after_checks k serverName now st)).1
        = Returns true) ∧
  let full := after_checks (Z.to_nat (requestsPerMinute l)) serverName now st in
  checkRateLimits serverName now full = (Returns false, full).
Proof.
  intros Hl Hnone Hconc Hpos. split.
  - intros k Hk.
    destruct (after_checks_counter serverName now st l k Hl Hnone Hconc)
      as (Hpol & Hcon & Hcounter); [lia|].
    destruct k as [|k].
    + by apply (checkRateLimits_new_window serverName now st l).
    + apply (checkRateLimits_counts serverName now _ l
               {| count := Z.of_nat (S k); window := now |});
        rewrite ?Hpol, ?Hcon; simpl; try done; lia.
  - cbv zeta.
    destruct (after_checks_counter serverName now st l
                (Z.to_nat (requestsPerMinute l)) Hl Hnone Hconc)
      as (Hpol & Hcon & Hcounter); [lia|].
    destruct (Z.to_nat (requestsPerMinute l)) as [|n] eqn:Hn; [lia|].
    apply (checkRateLimits_exhausted serverName now _ l
             {| count := Z.of_nat (S n); window := now |});
      rewrite ?Hpol; simpl; try done; lia.
Qed.

(** C6. A counter is looked up by the minute of the hour and is never
    compared with its window, so a counter that was not cleaned up is found
    again one hour later.  With the default policy ([helpscout]: 20 requests
    per minute), 20 calls for [helpscout] at one instant are all allowed;
    with no call in between, the first call of the same minute one hour
    later is denied for its rate, and the counter stays at 20 instead of
    starting again at 1. *)
Theorem C6_stale_counter_after_an_hour :
  let params := VObj [("query", VStr "refund")] in
  let first_minute :=
    repeat_validate 20 default_context "helpscout" "searchConversations" params 0
      (Security.new no_update) in
  let an_hour_later :=
    validateToolCall default_context "helpscout" "searchConversations" params
      3600000 first_minute.2 in
  effective_limits default_policy "helpscout"
  = Some {| requestsPerMinute := 20; maxConcurrent := 2 |} ∧
  first_minute.1 = repeat (Returns allow) 20 ∧
  rate_key "helpscout" 0 = "helpscout:0" ∧
  rate_key "helpscout" 3600000 = "helpscout:0" ∧
  an_hour_later.1 = Returns (deny (Some "Rate limit exceeded")) ∧
  rateLimitCounters an_hour_later.2 !! "helpscout:0"
  = Some {| count := 20; window := 0 |} ∧
  concurrentRequests an_hour_later.2 !! "helpscout" = None.
Proof.
  cbv zeta. repeat split; by vm_compute.
Qed.

(** * Further properties of the code *)

(** ** Concurrency tracking *)

Lemma validateToolCall_frame context serverName toolName params now st :
  policy (validateToolCall context serverName toolName params now st).2 = policy st ∧
  concurrentRequests (validateToolCall context serverName toolName params now st).2
  = concurrentRequests st.
Proof.
  rewrite validateToolCall_run.
  pose proof (performSecurityChecks_frame context serverName toolName params now st)
    as (Hpol & _ & Hcon).
  destruct (performSecurityChecks _ _ _ _ _ _) as [[verdict|e] st1];
    cbn [fst snd] in *; [|done].
  destruct (auditLogging (policy st1)); [|done].
  by destruct (sanitizeForLogging params).
Qed.

Lemma trackRequestStart_in_flight serverName other st :
  in_flight other (trackRequestStart serverName st).2
  = if decide (serverName = other) then in_flight other st + 1
    else in_flight other st.
Proof.
  unfold in_flight, trackRequestStart, bind, gets, modify. simpl.
  rewrite lookup_insert. destruct (decide (serverName = other)); by subst.
Qed.

Lemma trackRequestEnd_in_flight serverName other st :
  in_flight other (trackRequestEnd serverName st).2
  = if decide (serverName = other) then Z.max 0 (in_flight other st - 1)
    else in_flight other st.
Proof.
  unfold in_flight, trackRequestEnd, bind, gets, modify. simpl.
  rewrite lookup_insert. destruct (decide (serverName = other)); by subst.
Qed.

Lemma step_keeps_concurrency_nonneg st st' :
  step st st' → concurrency_nonneg st → concurrency_nonneg st'.
Proof.
  intros Hstep Hinv. destruct Hstep as [context serverName toolName params now st
                                       |serverName st|serverName st|updates st].
  - intros s n. by rewrite (proj2 (validateToolCall_frame _ _ _ _ _ _)); apply Hinv.
  - intros s n. unfold trackRequestStart, bind, gets, modify. simpl.
    rewrite lookup_insert. destruct (decide (serverName = s)) as [->|].
    + intros [= <-]. destruct (concurrentRequests st !! s) as [c|] eqn:Hc; simpl.
      * pose proof (Hinv s c Hc). lia.
      * lia.
    + apply Hinv.
  - intros s n. unfold trackRequestEnd, bind, gets, modify. simpl.
    rewrite lookup_insert. destruct (decide (serverName = s)) as [->|].
    + intros [= <-]. lia.
    + apply Hinv.
  - intros s n. apply Hinv.
Qed.

(** X1. The number of concurrent requests recorded for a server is never
    negative, in any state the security manager can reach. *)
Theorem X1_concurrency_never_negative st serverName n :
  reachable st → concurrentRequests st !! serverName = Some n → 0 ≤ n.
Proof.
  intros Hreach. revert serverName n.
  induction Hreach as [overrides|st st' _ IH Hstep].
  - intros s n Hlookup. simpl in Hlookup. by rewrite lookup_empty in Hlookup.
  - by apply (step_keeps_concurrency_nonneg st st').
Qed.

Lemma X1_concurrency_never_negative_witness :
  let st := (trackRequestEnd "automem" (Security.new no_update)).2 in
  reachable st ∧ concurrentRequests st !! "automem" = Some 0 ∧ 0 ≤ 0.
Proof.
  cbv zeta.
  assert (Hreach : reachable (trackRequestEnd "automem" (Security.new no_update)).2).
  { apply (reachable_step (Security.new no_update)); [constructor|].
    apply step_end. }
  split; [exact Hreach|]. split; [reflexivity|].
  exact (X1_concurrency_never_negative _ "automem" 0 Hreach eq_refl).
Defined.

(** X2. A request that starts and ends leaves the number of requests in
    flight of every server as it was; an end without a start does not take
    the number below zero. *)
Theorem X2_start_end_round_trip st serverName other :
  concurrency_nonneg st →
  in_flight other
    (trackRequestEnd serverName (trackRequestStart serverName st).2).2
  = in_flight other st ∧
  in_flight serverName (trackRequestEnd serverName st).2
  = Z.max 0 (in_flight serverName st - 1) ∧
  (in_flight serverName st = 0 →
   in_flight serverName (trackRequestEnd serverName st).2 = 0).
Proof.
  intros Hinv.
  assert (Hge : 0 ≤ in_flight other st).
  { unfold in_flight. destruct (concurrentRequests st !! other) as [c|] eqn:Hc;
      simpl; [by apply (Hinv other c)|lia]. }
  split; [|split].
  - rewrite trackRequestEnd_in_flight, trackRequestStart_in_flight.
    destruct (decide (serverName = other)); lia.
  - rewrite trackRequestEnd_in_flight. by destruct (decide (serverName = serverName)).
  - intros Hzero. rewrite trackRequestEnd_in_flight.
    destruct (decide (serverName = serverName)); lia.
Qed.

Lemma X2_start_end_round_trip_witness :
  concurrency_nonneg (Security.new no_update) ∧
  in_flight "automem"
    (trackRequestEnd "automem"
       (trackRequestStart "automem" (Security.new no_update)).2).2
  = in_flight "automem" (Security.new no_update).
Proof.
  assert (Hinv : concurrency_nonneg (Security.new no_update)).
  { intros s n Hlookup. simpl in Hlookup. by rewrite lookup_empty in Hlookup. }
  split; [exact Hinv|].
  exact (proj1 (X2_start_end_round_trip (Security.new no_update) "automem" "automem"
                  Hinv)).
Defined.

(** ** The audit log, further *)

Lemma validateToolCall_log_bound context serverName toolName params now st :
  (length (auditLog st) ≤ 1000)%nat →
  (length (auditLog (validateToolCall context serverName toolName params now st).2)
   ≤ 1000)%nat.
Proof.
  intros Hbound. rewrite validateToolCall_run.
  pose proof (performSecurityChecks_frame context serverName toolName params now st)
    as (_ & Hlog & _).
  destruct (performSecurityChecks _ _ _ _ _ _) as [[verdict|e] st1];
    cbn [fst snd] in *; [|by rewrite Hlog].
  destruct (auditLogging (policy st1)); [|cbn [snd]; by rewrite Hlog].
  destruct (sanitizeForLogging params); [|cbn [snd]; by rewrite Hlog].
  cbn [snd]. rewrite logAuditEntry_log, slice_last_length. lia.
Qed.

(** X3. The audit log never holds more than 1000 entries, in any state the
    security manager can reach. *)
Theorem X3_audit_log_bounded st :
  reachable st → (length (auditLog st) ≤ 1000)%nat.
Proof.
  induction 1 as [overrides|st st' _ IH Hstep]; [simpl; lia|].
  destruct Hstep; [by apply validateToolCall_log_bound|done|done|done].
Qed.

Lemma X3_audit_log_bounded_witness :
  reachable state_with_credentials_logged ∧
  (length (auditLog state_with_credentials_logged) ≤ 1000)%nat.
Proof.
  assert (Hreach : reachable state_with_credentials_logged).
  { apply (reachable_step (Security.new no_update)); [constructor|].
    apply step_validate. }
  split; [exact Hreach|]. exact (X3_audit_log_bounded _ Hreach).
Defined.

Lemma slice_last_snoc {A} (n : nat) (l : list A) x :
  (1 ≤ n)%nat → last (slice_last n (l ++ [x])) = Some x.
Proof.
  intros Hn. unfold slice_last. rewrite length_app. simpl.
  rewrite drop_app_le by lia. by rewrite last_snoc.
Qed.

(** X4. The entry of a call that [validateToolCall] has logged is the last
    entry [getAuditLog] returns without a filter, right after the call. *)
Theorem X4_latest_entry_is_returned
  context serverName toolName params logged now st verdict :
  auditLogging (policy st) = true →
  sanitizeForLogging params = Some logged →
  (validateToolCall context serverName toolName params now st).1 = Returns verdict →
  last (getAuditLog None
          (validateToolCall context serverName toolName params now st).2)
  = Some (audit_entry context serverName toolName logged now verdict).
Proof.
  intros Hlogging Hlogged. rewrite validateToolCall_run.
  pose proof (performSecurityChecks_frame context serverName toolName params now st)
    as (Hpol & _ & _).
  destruct (performSecurityChecks _ _ _ _ _ _) as [[verdict'|e] st1];
    cbn [fst snd] in *; [|discriminate].
  rewrite Hpol, Hlogging, Hlogged. cbn [fst snd]. intros [= ->].
  unfold getAuditLog. rewrite logAuditEntry_log.
  destruct (slice_last_suffix 1000 (auditLog st1 ++
              [audit_entry context serverName toolName logged now verdict]))
    as [older Heq].
  assert (Hlast : last (slice_last 1000 (auditLog st1 ++
              [audit_entry context serverName toolName logged now verdict]))
            = Some (audit_entry context serverName toolName logged now verdict))
    by (apply slice_last_snoc; lia).
  destruct (slice_last 1000 _) as [|e0 kept] using rev_ind; [done|].
  rewrite last_snoc in Hlast. injection Hlast as ->.
  apply slice_last_snoc. lia.
Qed.

Lemma X4_latest_entry_is_returned_witness :
  let params := VObj [("query", VStr "x")] in
  last (getAuditLog None
          (validateToolCall default_context "automem" "recall" params 0
             (Security.new no_update)).2)
  = Some (audit_entry default_context "automem" "recall" params 0 allow).
Proof.
  cbv zeta.
  exact (X4_latest_entry_is_returned default_context "automem" "recall"
           (VObj [("query", VStr "x")]) (VObj [("query", VStr "x")]) 0
           (Security.new no_update) allow eq_refl eq_refl eq_refl).
Defined.

(** ** Rate limits, further *)

(** X5. After a check that passes, no counter older than two minutes is
    left, whatever server or minute it belongs to. *)
Theorem X5_passing_check_expires_old_counters serverName now st key c :
  (checkRateLimits serverName now st).1 = Returns true →
  rateLimitCounters (checkRateLimits serverName now st).2 !! key = Some c →
  now - 2 * 60 * 1000 ≤ window c.
Proof.
  unfold checkRateLimits. run_method.
  destruct (rateLimitCounters st !! rate_key serverName now) as [c0|];
    destruct (read_limits (policy st) serverName) as [l| |]; simpl;
    repeat case_match; simpl; try discriminate; intros _ Hlookup;
    apply map_lookup_filter_Some in Hlookup as [_ Hfresh]; simpl in Hfresh; lia.
Qed.

Lemma X5_passing_check_expires_old_counters_witness :
  let st := (checkRateLimits "automem" 0 (Security.new no_update)).2 in
  (checkRateLimits "serena" 180000 st).1 = Returns true ∧
  rateLimitCounters (checkRateLimits "serena" 180000 st).2 !! "serena:3"
  = Some {| count := 1; window := 180000 |} ∧
  rateLimitCounters (checkRateLimits "serena" 180000 st).2 !! "automem:0" = None ∧
  180000 - 2 * 60 * 1000 ≤ 180000.
Proof.
  cbv zeta. split; [reflexivity|]. split; [reflexivity|]. split; [reflexivity|].
  exact (X5_passing_check_expires_old_counters "serena" 180000
           (checkRateLimits "automem" 0 (Security.new no_update)).2 "serena:3"
           {| count := 1; window := 180000 |} eq_refl eq_refl).
Defined.

(** X6. A request refused because the server is at its concurrency cap has
    been counted all the same: the counter of the minute is raised (or
    opened at 1) before the cap is tested, and old counters are not cleaned
    up.  The limits are those of an entry of [rateLimits], the server's or
    the default one. *)
Theorem X6_refused_for_concurrency_is_counted serverName now st l :
  read_limits (policy st) serverName = Limits l →
  maxConcurrent l ≤ in_flight serverName st →
  match rateLimitCounters st !! rate_key serverName now with
  | Some c => count c < requestsPerMinute l
  | None => True
  end →
  checkRateLimits serverName now st
  = (Returns false,
     set_rateLimitCounters
       (<[rate_key serverName now :=
            match rateLimitCounters st !! rate_key serverName now with
            | Some c => {| count := count c + 1; window := window c |}
            | None => {| count := 1; window := now |}
            end]>) st).
Proof.
  intros Hl Hcap Hbelow. unfold checkRateLimits, in_flight in *. run_method.
  rewrite Hl.
  destruct (rateLimitCounters st !! rate_key serverName now) as [c|]; simpl.
  - destruct (Z.leb_spec (requestsPerMinute l) (count c)); [lia|]. simpl.
    by destruct (Z.leb_spec (maxConcurrent l)
                   (default 0 (concurrentRequests st !! serverName))); [|lia].
  - by destruct (Z.leb_spec (maxConcurrent l)
                   (default 0 (concurrentRequests st !! serverName))); [|lia].
Qed.

Lemma X6_refused_for_concurrency_is_counted_witness :
  let busy := (trackRequestStart "helpscout"
                 (trackRequestStart "helpscout" (Security.new no_update)).2).2 in
  (checkRateLimits "helpscout" 0 busy).1 = Returns false ∧
  rateLimitCounters (checkRateLimits "helpscout" 0 busy).2 !! "helpscout:0"
  = Some {| count := 1; window := 0 |}.
Proof.
  cbv zeta.
  set (busy := (trackRequestStart "helpscout" _).2).
  rewrite (X6_refused_for_concurrency_is_counted "helpscout" 0 busy
             {| requestsPerMinute := 20; maxConcurrent := 2 |} eq_refl);
    [split; reflexivity| |exact I].
  vm_compute. discriminate.
Defined.

(** X7. When [limits] is [undefined] ([rateLimits] has no entry for the
    server and no [default] entry, and the server has not the name of a
    member of [Object.prototype]), a call that passes the three checks before
    the rate limit is not answered: [validateToolCall] throws, and nothing is
    logged. *)
Theorem X7_missing_limits_throw context serverName toolName params now st :
  read_limits (policy st) serverName = No_limits →
  string_in serverName (allowedServers (policy st)) = true →
  tool_allowed (policy st) serverName toolName = true →
  checkRuntimePermissions context serverName toolName = true →
  (∃ e, (validateToolCall context serverName toolName params now st).1 = Throws e) ∧
  auditLog (validateToolCall context serverName toolName params now st).2
  = auditLog st.
Proof.
  intros Hl Hserver Htool Hperm.
  rewrite validateToolCall_run, performSecurityChecks_run. cbv zeta.
  rewrite Hserver, (tool_allowed_own _ _ _ Htool), Htool, Hperm. simpl.
  pose proof (checkRateLimits_frame serverName now st) as (_ & Hlog & _).
  destruct (checkRateLimits_throws serverName now st Hl) as [e Hthrows].
  destruct (checkRateLimits serverName now st) as [r st1]. cbn [fst snd] in *.
  subst r. split; [by exists e|done].
Qed.

Lemma X7_missing_limits_throw_witness :
  let st := (updatePolicy
               {| new_allowedServers := None; new_allowedTools := None;
                  new_rateLimits :=
                    Some (<["automem" := {| requestsPerMinute := 100;
                                            maxConcurrent := 10 |}]> ∅);
                  new_dataValidation := None; new_auditLogging := None |}
               (Security.new no_update)).2 in
  read_limits (policy st) "serena" = No_limits ∧
  (∃ e, (validateToolCall default_context "serena" "search_for_pattern"
           (VObj [("pattern", VStr "x")]) 0 st).1 = Throws e) ∧
  auditLog (validateToolCall default_context "serena" "search_for_pattern"
              (VObj [("pattern", VStr "x")]) 0 st).2 = [].
Proof.
  cbv zeta.
  set (st := (updatePolicy _ _).2).
  split; [reflexivity|].
  exact (X7_missing_limits_throw default_context "serena"
           "search_for_pattern" (VObj [("pattern", VStr "x")]) 0 st
           eq_refl eq_refl eq_refl eq_refl).
Defined.

(** ** Params that are not a plain mapping *)

Lemma convertArgsToParams_single_object toolName only :
  known_tool toolName = false → JS.is_object only = true →
  convertArgsToParams toolName [only] = only.
Proof.
  intros Hunknown Hobj.
  destruct (known_tool_false _ Hunknown) as (H1 & H2 & H3 & H4).
  unfold convertArgsToParams. rewrite H1, H2, H3, H4.
  change (arg 0 [only]) with only. by rewrite Hobj.
Qed.

(** X8. A tool without a case of its own, called with the single argument
    [null], has the params [null]; with audit logging on, the validation of
    such a call throws and leaves no entry in the audit log, whatever the
    checks decide. *)
Theorem X8_null_params_are_not_audited context serverName toolName now st :
  known_tool toolName = false →
  auditLogging (policy st) = true →
  convertArgsToParams toolName [VNull] = VNull ∧
  (∃ e, (validateToolCall context serverName toolName
           (convertArgsToParams toolName [VNull]) now st).1 = Throws e) ∧
  auditLog (validateToolCall context serverName toolName
              (convertArgsToParams toolName [VNull]) now st).2
  = auditLog st.
Proof.
  intros Hunknown Hlogging.
  rewrite (convertArgsToParams_single_object toolName VNull Hunknown eq_refl).
  split; [done|]. rewrite validateToolCall_run.
  pose proof (performSecurityChecks_frame context serverName toolName VNull now st)
    as (Hpol & Hlog & _).
  destruct (performSecurityChecks _ _ _ _ _ _) as [[verdict|e] st1];
    cbn [fst snd] in *.
  - rewrite Hpol, Hlogging. simpl. split; [by eexists|done].
  - split; [by eexists|done].
Qed.

Lemma X8_null_params_are_not_audited_witness :
  (validateToolCall default_context "automem" "associate"
     (convertArgsToParams "associate" [VNull]) 0 (Security.new no_update)).1
  = Throws "TypeError: Cannot convert undefined or null to object" ∧
  auditLog (validateToolCall default_context "automem" "associate"
              (convertArgsToParams "associate" [VNull]) 0
              (Security.new no_update)).2 = [].
Proof.
  split; [reflexivity|].
  exact (proj2 (proj2 (X8_null_params_are_not_audited default_context "automem"
                         "associate" 0 (Security.new no_update) eq_refl eq_refl))).
Defined.

Lemma append_head c s t : String c s +:+ t = String c (s +:+ t).
Proof. reflexivity. Qed.

(** X9. With input sanitization on, params that are an array never pass
    payload validation: [sanitizeInputs] turns the array into an object, so
    the two serializations differ.  These are the params of a tool without a
    case of its own called with a single array argument. *)
Theorem X9_array_params_are_rejected p toolName items :
  known_tool toolName = false →
  sanitizeInputsEnabled (dataValidation p) = true →
  convertArgsToParams toolName [VArr items] = VArr items ∧
  valid (validatePayload p (convertArgsToParams toolName [VArr items])) = false.
Proof.
  intros Hunknown Hon.
  rewrite (convertArgsToParams_single_object toolName (VArr items) Hunknown eq_refl).
  split; [done|]. unfold validatePayload, validatePayload_try.
  cbn [JSON.stringify]. cbn [mbind option_bind].
  destruct (_ <? _); [done|]. rewrite Hon.
  cbn [sanitizeInputs].
  destruct (mapM_indexed _ 0 items) as [entries|]; [|done].
  cbn [fmap option_fmap option_map mbind option_bind JSON.stringify].
  rewrite bool_decide_eq_false_2; [done|].
  rewrite !append_head. intros Heq. discriminate Heq.
Qed.

Lemma X9_array_params_are_rejected_witness :
  valid (validatePayload default_policy
           (convertArgsToParams "analyze" [VArr [VNum 1; VNum 2]])) = false.
Proof.
  exact (proj2 (X9_array_params_are_rejected default_policy "analyze"
                  [VNum 1; VNum 2] eq_refl eq_refl)).
Defined.

Lemma mapM_None {A B} (f : A → option B) l x :
  In x l → f x = None → mapM f l = None.
Proof.
  induction l as [|a l IH]; intros Hin Hx; [destruct Hin|]. simpl.
  destruct Hin as [->|Hin]; [by rewrite Hx|].
  destruct (f a); [|done]. by rewrite IH.
Qed.

(** X10. With input sanitization on, params one of whose properties is an
    array with a [null] element are rejected: [sanitizeInputs] throws on the
    element, and unless the payload is already too large the reason is
    [Invalid payload structure]. *)
Theorem X10_null_array_element_is_rejected p props k items serialized :
  sanitizeInputsEnabled (dataValidation p) = true →
  In (k, VArr items) props →
  In VNull items →
  JSON.stringify (VObj props) = Some serialized →
  sanitizeInputs (VObj props) = None ∧
  valid (validatePayload p (VObj props)) = false ∧
  (Str.len serialized ≤ maxPayloadSize (dataValidation p) →
   validatePayload p (VObj props) = payload_rejected "Invalid payload structure").
Proof.
  intros Hon Hprop Hnull Hser.
  assert (Hnone : sanitizeInputs (VObj props) = None).
  { cbn [sanitizeInputs]. unfold mapM_props.
    rewrite (mapM_None _ props (k, VArr items) Hprop); [done|].
    cbn [fst snd sanitize_value].
    by rewrite (mapM_None _ items VNull Hnull). }
  split; [done|].
  unfold validatePayload, validatePayload_try. rewrite Hser, Hnone, Hon.
  cbn [mbind option_bind].
  destruct (Z.ltb_spec (maxPayloadSize (dataValidation p)) (Str.len serialized));
    [split; [done|lia]|]. by split.
Qed.

Lemma X10_null_array_element_is_rejected_witness :
  validatePayload default_policy
    (VObj [("content", VStr "x"); ("tags", VArr [VStr "a"; VNull])])
  = payload_rejected "Invalid payload structure".
Proof.
  refine (proj2 (proj2 (X10_null_array_element_is_rejected default_policy
                          [("content", VStr "x"); ("tags", VArr [VStr "a"; VNull])]
                          "tags" [VStr "a"; VNull] _ eq_refl _ _ eq_refl)) _).
  - simpl. tauto.
  - simpl. tauto.
  - vm_compute. discriminate.
Defined.

(** ** What payload validation lets through *)

Section serialized_lengths.
Local Open Scope nat_scope.

Lemma length_append (a b : string) :
  String.length (a +:+ b) = String.length a + String.length b.
Proof. induction a as [|c a IH]; [done|]. rewrite append_head. simpl. by rewrite IH. Qed.

Lemma quote_char_length c : 1 ≤ String.length (JSON.quote_char c).
Proof.
  unfold JSON.quote_char, JSON.escape. repeat case_match; simpl; lia.
Qed.

Lemma quoted_length_cons c s :
  quoted_length (String c s)
  = String.length (JSON.quote_char c) + quoted_length s.
Proof. unfold quoted_length. simpl. apply length_append. Qed.

Lemma replace_from_quoted_length m k s :
  quoted_length (Regex.replace_from m k s) ≤ quoted_length s.
Proof.
  revert k. induction s as [|c s IH]; intros k; [done|].
  rewrite quoted_length_cons. simpl. destruct k as [|k].
  - destruct (m (String c s)) as [[|j]|].
    + rewrite quoted_length_cons. specialize (IH 0). lia.
    + specialize (IH j). lia.
    + rewrite quoted_length_cons. specialize (IH 0). lia.
  - specialize (IH k). lia.
Qed.

Lemma replace_all_shrinks m : shrinks (Regex.replace_all m).
Proof.
  intros s. unfold Regex.replace_all. induction s as [|c s IH]; [by left|].
  simpl. pose proof (quote_char_length c) as Hc.
  destruct (m (String c s)) as [[|j]|].
  - destruct IH as [->|IH]; [by left|right]. rewrite !quoted_length_cons. lia.
  - right. rewrite quoted_length_cons.
    pose proof (replace_from_quoted_length m j s). lia.
  - destruct IH as [->|IH]; [by left|right]. rewrite !quoted_length_cons. lia.
Qed.

Lemma shrinks_le f s : shrinks f → quoted_length (f s) ≤ quoted_length s.
Proof. intros Hf. destruct (Hf s) as [->|]; lia. Qed.

(** A matcher that matches wherever [pat] begins removes every occurrence
    of [pat], or something around it. *)
Lemma replace_all_detects m pat :
  pat ≠ EmptyString →
  (∀ t, Regex.startsWith_ci pat t = true → ∃ k, m t = Some (S k)) →
  detects pat (Regex.replace_all m).
Proof.
  intros Hpat Hm s. unfold Regex.replace_all.
  induction s as [|c s IH]; intros n Hfind.
  - simpl in Hfind. destruct pat; [done|discriminate].
  - pose proof (quote_char_length c) as Hc.
    cbn [Regex.find_ci] in Hfind. cbn [Regex.replace_from].
    destruct (Regex.startsWith_ci pat (String c s)) eqn:Hstart.
    + destruct (Hm _ Hstart) as [k ->]. rewrite quoted_length_cons.
      pose proof (replace_from_quoted_length m k s). lia.
    + destruct (Regex.find_ci pat s) as [n'|] eqn:Hrest; [|discriminate].
      specialize (IH n' eq_refl).
      destruct (m (String c s)) as [[|j]|].
      * rewrite !quoted_length_cons. lia.
      * rewrite quoted_length_cons.
        pose proof (replace_from_quoted_length m j s). lia.
      * rewrite !quoted_length_cons. lia.
Qed.

Lemma detects_after pat f g :
  detects pat f → shrinks g → detects pat (λ s, g (f s)).
Proof.
  intros Hf Hg s n Hfind. specialize (Hf s n Hfind).
  pose proof (shrinks_le g (f s) Hg). lia.
Qed.

Lemma detects_before pat f g :
  shrinks f → shrinks g → detects pat g → detects pat (λ s, g (f s)).
Proof.
  intros Hf Hsg Hg s n Hfind. destruct (Hf s) as [Heq|Hlt].
  - rewrite Heq. by apply (Hg s n).
  - pose proof (shrinks_le g (f s) Hsg). lia.
Qed.

End serialized_lengths.

Lemma sanitize_string_shrink_steps :
  shrinks (Regex.replace_all Regex.script_tag) ∧
  shrinks (Regex.replace_all (Regex.literal_ci "javascript:")) ∧
  shrinks (Regex.replace_all (Regex.literal_ci "data:")) ∧
  shrinks (Regex.replace_all (Regex.literal_ci "vbscript:")) ∧
  shrinks (Regex.replace_all
             (Regex.alt [Regex.literal_ci "onload"; Regex.literal_ci "onerror";
                         Regex.literal_ci "onclick"])).
Proof. repeat split; apply replace_all_shrinks. Qed.

Lemma literal_ci_detects pat :
  pat ≠ EmptyString → detects pat (Regex.replace_all (Regex.literal_ci pat)).
Proof.
  intros Hpat. apply replace_all_detects; [done|].
  intros t Hstart. unfold Regex.literal_ci. rewrite Hstart.
  destruct pat as [|c pat]; [done|]. eexists. reflexivity.
Qed.

Lemma handlers_detect pat :
  In pat ["onload"; "onerror"; "onclick"] →
  detects pat
    (Regex.replace_all
       (Regex.alt [Regex.literal_ci "onload"; Regex.literal_ci "onerror";
                   Regex.literal_ci "onclick"])).
Proof.
  intros Hin. apply replace_all_detects.
  { destruct Hin as [<-|[<-|[<-|[]]]]; discriminate. }
  intros t Hstart. cbn [Regex.alt]. unfold Regex.literal_ci.
  destruct Hin as [<-|[<-|[<-|[]]]]; rewrite ?Hstart.
  - eexists. reflexivity.
  - destruct (Regex.startsWith_ci "onload" t); eexists; reflexivity.
  - destruct (Regex.startsWith_ci "onload" t); [eexists; reflexivity|].
    destruct (Regex.startsWith_ci "onerror" t); eexists; reflexivity.
Qed.

(** Every literal of the deny-list makes [sanitize_string] change the
    string it occurs in. *)
Lemma sanitize_string_detects pat :
  In pat denied_literals → detects pat sanitize_string.
Proof.
  destruct sanitize_string_shrink_steps as (H1 & H2 & H3 & H4 & H5).
  set (h1 := Regex.replace_all Regex.script_tag) in *.
  set (h2 := Regex.replace_all (Regex.literal_ci "javascript:")) in *.
  set (h3 := Regex.replace_all (Regex.literal_ci "data:")) in *.
  set (h4 := Regex.replace_all (Regex.literal_ci "vbscript:")) in *.
  set (h5 := Regex.replace_all (Regex.alt _)) in *.
  assert (S12 : shrinks (λ s, h2 (h1 s))).
  { intros s. destruct (H1 s) as [->|]; [apply H2|right].
    pose proof (shrinks_le h2 (h1 s) H2). lia. }
  assert (S123 : shrinks (λ s, h3 (h2 (h1 s)))).
  { intros s. destruct (S12 s) as [->|]; [apply H3|right].
    pose proof (shrinks_le h3 (h2 (h1 s)) H3). lia. }
  assert (S1234 : shrinks (λ s, h4 (h3 (h2 (h1 s))))).
  { intros s. destruct (S123 s) as [->|]; [apply H4|right].
    pose proof (shrinks_le h4 (h3 (h2 (h1 s))) H4). lia. }
  intros [<-|[<-|[<-|Hhandler]]].
  - apply (detects_after _ (λ s, h4 (h3 (h2 (h1 s)))) h5); [|done].
    apply (detects_after _ (λ s, h3 (h2 (h1 s))) h4); [|done].
    apply (detects_after _ (λ s, h2 (h1 s)) h3); [|done].
    apply (detects_before _ h1 h2); [done|done|]. by apply literal_ci_detects.
  - apply (detects_after _ (λ s, h4 (h3 (h2 (h1 s)))) h5); [|done].
    apply (detects_after _ (λ s, h3 (h2 (h1 s))) h4); [|done].
    apply (detects_before _ (λ s, h2 (h1 s)) h3); [done|done|].
    by apply literal_ci_detects.
  - apply (detects_after _ (λ s, h4 (h3 (h2 (h1 s)))) h5); [|done].
    apply (detects_before _ (λ s, h3 (h2 (h1 s))) h4); [done|done|].
    by apply literal_ci_detects.
  - apply (detects_before _ (λ s, h4 (h3 (h2 (h1 s)))) h5); [done|done|].
    by apply handlers_detect.
Qed.

Lemma mapM_keep_non_objects self items :
  forallb (λ item, negb (JS.is_object item)) items = true →
  mapM (λ item, if JS.is_object item then self item else Some item) items
  = Some items.
Proof.
  induction items as [|item items IH]; [done|]. simpl.
  destruct (JS.is_object item); [done|]. simpl. intros Hrest. by rewrite IH.
Qed.

Lemma sanitize_value_simple self v :
  simple v = true → sanitize_value self v = Some (sanitize_simple v).
Proof.
  destruct v; try done. simpl. intros Hitems.
  by rewrite mapM_keep_non_objects.
Qed.

Lemma sanitizeInputs_simple props :
  Forall (λ kv : string * value, simple kv.2 = true) props →
  sanitizeInputs (VObj props)
  = Some (VObj (JS.assigned (map (λ kv, (kv.1, sanitize_simple kv.2)) props))).
Proof.
  intros Hall. cbn [sanitizeInputs]. unfold mapM_props.
  assert (Hmap : mapM (λ kv : string * value,
                         match sanitize_value sanitizeInputs kv.2 with
                         | Some y => Some (kv.1, y)
                         | None => None
                         end) props
                 = Some (map (λ kv, (kv.1, sanitize_simple kv.2)) props)).
  { induction Hall as [|[k v] props Hv _ IH]; [done|]. simpl in *.
    by rewrite (sanitize_value_simple _ v Hv), IH. }
  by rewrite Hmap.
Qed.

Section rejected_payloads.
Local Open Scope nat_scope.

Lemma join_length (l : list string) :
  String.length (Str.join "," l)
  = sum_list_with String.length l + (length l - 1).
Proof.
  induction l as [|x l IH]; [done|].
  destruct l as [|y l]; [cbn [Str.join sum_list_with length]; lia|].
  change (Str.join "," (x :: y :: l)) with (x +:+ "," +:+ Str.join "," (y :: l)).
  rewrite !length_append, IH. cbn [sum_list_with length String.length]. lia.
Qed.

Lemma shrinks_compose f g : shrinks f → shrinks g → shrinks (λ s, g (f s)).
Proof.
  intros Hf Hg s. destruct (Hf s) as [->|]; [apply Hg|right].
  pose proof (shrinks_le g (f s) Hg). lia.
Qed.

Lemma sanitize_string_shrinks : shrinks sanitize_string.
Proof.
  destruct sanitize_string_shrink_steps as (H1 & H2 & H3 & H4 & H5).
  pose proof (shrinks_compose _ _ H1 H2) as H12.
  pose proof (shrinks_compose _ _ H12 H3) as H123.
  pose proof (shrinks_compose _ _ H123 H4) as H1234.
  exact (shrinks_compose _ _ H1234 H5).
Qed.

Lemma quote_length s : String.length (JSON.quote s) = quoted_length s + 2.
Proof.
  unfold JSON.quote, quoted_length. simpl. rewrite length_append. simpl. lia.
Qed.

Lemma piece_sanitized k v :
  match piece (k, v), piece (sanitized (k, v)) with
  | Some a, Some b => String.length b ≤ String.length a
  | None, None => True
  | _, _ => False
  end.
Proof.
  unfold piece, sanitized. destruct v; simpl; try done; try lia.
  rewrite !length_append, !quote_length.
  pose proof (shrinks_le _ s sanitize_string_shrinks). lia.
Qed.

Lemma pieces_sanitized props :
  length (omap piece (map sanitized props)) = length (omap piece props) ∧
  sum_list_with String.length (omap piece (map sanitized props))
  ≤ sum_list_with String.length (omap piece props).
Proof.
  induction props as [|[k v] props [IHlen IHsum]]; [done|].
  cbn [omap list_omap map].
  pose proof (piece_sanitized k v) as Hkv.
  destruct (piece (k, v)), (piece (sanitized (k, v))); try done;
    cbn [length sum_list_with]; lia.
Qed.

Lemma pieces_sanitized_strict props k s pat n :
  In (k, VStr s) props →
  In pat denied_literals →
  Regex.find_ci pat s = Some n →
  sum_list_with String.length (omap piece (map sanitized props))
  < sum_list_with String.length (omap piece props).
Proof.
  intros Hin Hpat Hfind.
  induction props as [|[k' v] props IH]; [destruct Hin|].
  cbn [omap list_omap map].
  pose proof (pieces_sanitized props) as [_ Hrest].
  destruct Hin as [[= -> ->]|Hin].
  - change (piece (sanitized (k, VStr s)))
      with (Some (JSON.quote k +:+ ":" +:+ JSON.quote (sanitize_string s))).
    change (piece (k, VStr s)) with (Some (JSON.quote k +:+ ":" +:+ JSON.quote s)).
    cbn [sum_list_with]. rewrite !length_append, !quote_length.
    pose proof (sanitize_string_detects pat Hpat s n Hfind). lia.
  - specialize (IH Hin). pose proof (piece_sanitized k' v) as Hkv.
    destruct (piece (k', v)), (piece (sanitized (k', v))); try done;
      cbn [sum_list_with]; lia.
Qed.

(** Dropping the assignments to [__proto__] takes pieces away. *)
Lemma pieces_assigned (entries : list (string * value)) :
  length (omap piece (JS.assigned entries)) ≤ length (omap piece entries) ∧
  sum_list_with String.length (omap piece (JS.assigned entries))
  ≤ sum_list_with String.length (omap piece entries).
Proof.
  induction entries as [|[k v] entries [IHlen IHsum]]; [done|].
  unfold JS.assigned in *. cbn [List.filter fst].
  destruct (negb (String.eqb k "__proto__")); cbn [omap list_omap];
    destruct (piece (k, v)); cbn [length sum_list_with]; lia.
Qed.

(** X11. With input sanitization on, params whose property values are
    simple (no object, and no array with an element of type object) are
    rejected as soon as one of their string properties contains, in any
    case, a literal of the deny-list: [javascript:], [data:], [vbscript:],
    [onload], [onerror] or [onclick].  Unless the payload is already too
    large, the reason is the one for unsafe content. *)
Theorem X11_denied_literal_is_rejected p props k s pat n serialized :
  sanitizeInputsEnabled (dataValidation p) = true →
  Forall (λ kv : string * value, simple kv.2 = true) props →
  In (k, VStr s) props →
  In pat denied_literals →
  Regex.find_ci pat s = Some n →
  JSON.stringify (VObj props) = Some serialized →
  valid (validatePayload p (VObj props)) = false ∧
  ((Str.len serialized ≤ maxPayloadSize (dataValidation p))%Z →
   validatePayload p (VObj props)
   = payload_rejected "Payload contains potentially unsafe content").
Proof.
  intros Hon Hsimple Hin Hpat Hfind Hser.
  assert (Hdiff : JSON.stringify (VObj (JS.assigned (map sanitized props)))
                  ≠ Some serialized).
  { intros Hsame. cbn [JSON.stringify] in Hser, Hsame.
    injection Hser as <-. injection Hsame as Hsame.
    apply (f_equal String.length) in Hsame.
    rewrite !length_append, !join_length in Hsame.
    pose proof (pieces_sanitized props) as [Hlen _].
    pose proof (pieces_sanitized_strict props k s pat n Hin Hpat Hfind) as Hlt.
    pose proof (pieces_assigned (map sanitized props)) as [Hlen' Hsum'].
    unfold piece in Hlen, Hlt, Hlen', Hsum'. lia. }
  unfold validatePayload, validatePayload_try.
  rewrite Hser, (sanitizeInputs_simple props Hsimple), Hon.
  cbn [mbind option_bind]. fold sanitized.
  rewrite (bool_decide_eq_false_2 _ Hdiff).
  destruct (Z.ltb_spec (maxPayloadSize (dataValidation p)) (Str.len serialized));
    [split; [done|lia]|]. by split.
Qed.

End rejected_payloads.

Lemma X11_denied_literal_is_rejected_witness :
  validatePayload default_policy
    (VObj [("content", VStr "see metaDATA: x"); ("tags", VArr [VStr "a"])])
  = payload_rejected "Payload contains potentially unsafe content".
Proof.
  refine (proj2 (X11_denied_literal_is_rejected default_policy
                   [("content", VStr "see metaDATA: x"); ("tags", VArr [VStr "a"])]
                   "content" "see metaDATA: x" "data:" 8 _ eq_refl _ _ _ eq_refl
                   eq_refl) _).
  - repeat constructor.
  - simpl. tauto.
  - simpl. tauto.
  - vm_compute. discriminate.
Defined.

(** A test on characters that does not tell a letter from its other case. *)
Lemma special_chars_upper c :
  (negb (Ascii.eqb (Str.upper_char c) "<") && negb (Ascii.eqb (Str.upper_char c) ":"))%bool
  = (negb (Ascii.eqb c "<") && negb (Ascii.eqb c ":"))%bool.
Proof. by destruct c as [[] [] [] [] [] [] [] []]. Qed.

Lemma startsWith_ci_all_chars pat t :
  Regex.startsWith_ci pat t = true →
  all_chars (λ c, negb (Ascii.eqb c "<") && negb (Ascii.eqb c ":")) t = true →
  all_chars (λ c, negb (Ascii.eqb c "<") && negb (Ascii.eqb c ":")) pat = true.
Proof.
  revert t. induction pat as [|a pat IH]; intros t; [done|].
  destruct t as [|b t]; [done|]. simpl.
  intros [Hab Hrest]%andb_prop [Hb Ht]%andb_prop.
  rewrite (IH t Hrest Ht), andb_true_r.
  unfold Regex.eqb_ci in Hab. apply Ascii.eqb_eq in Hab.
  rewrite <- special_chars_upper, Hab, special_chars_upper. exact Hb.
Qed.

Lemma replace_all_unchanged (m : Regex.matcher) (P : string → Prop) s :
  (∀ c t, P (String c t) → P t) →
  (∀ t, P t → m t = None) →
  P s → Regex.replace_all m s = s.
Proof.
  intros Hclosed Hnone. unfold Regex.replace_all.
  induction s as [|c s IH]; intros Hs; [done|]. simpl.
  rewrite (Hnone _ Hs), IH; [done|]. by apply (Hclosed c).
Qed.

Lemma literal_ci_needs_special pat t :
  all_chars (λ c, negb (Ascii.eqb c "<") && negb (Ascii.eqb c ":")) pat = false →
  all_chars (λ c, negb (Ascii.eqb c "<") && negb (Ascii.eqb c ":")) t = true →
  Regex.startsWith_ci pat t = false.
Proof.
  intros Hpat Ht. destruct (Regex.startsWith_ci pat t) eqn:Hstart; [|done].
  by rewrite (startsWith_ci_all_chars pat t Hstart Ht) in Hpat.
Qed.

Lemma find_ci_None_tail pat c t :
  Regex.find_ci pat (String c t) = None →
  Regex.startsWith_ci pat (String c t) = false ∧ Regex.find_ci pat t = None.
Proof.
  cbn [Regex.find_ci]. destruct (Regex.startsWith_ci pat (String c t)); [done|].
  by destruct (Regex.find_ci pat t).
Qed.

Lemma find_ci_None_head pat t :
  Regex.find_ci pat t = None → Regex.startsWith_ci pat t = false.
Proof.
  destruct t as [|c t]; [|by intros [? _]%find_ci_None_tail].
  simpl. by destruct (Regex.startsWith_ci pat EmptyString).
Qed.

Lemma startsWith_ci_on a b rest t :
  Regex.startsWith_ci (String a (String b rest)) t = true →
  Regex.startsWith_ci (String a (String b EmptyString)) t = true.
Proof.
  destruct t as [|x [|y t]]; simpl; try done.
  by destruct (Regex.eqb_ci a x), (Regex.eqb_ci b y).
Qed.

(** A harmless string goes through the chain of replacements unchanged. *)
Lemma sanitize_string_harmless s :
  harmless s = true → sanitize_string s = s.
Proof.
  unfold harmless. intros [Hchars Hon]%andb_prop.
  apply bool_decide_eq_true_1 in Hon.
  assert (Hspecial : ∀ m pat,
            (∀ t, m t = if Regex.startsWith_ci pat t then m t else None) →
            all_chars (λ c, negb (Ascii.eqb c "<") && negb (Ascii.eqb c ":")) pat
            = false →
            Regex.replace_all m s = s).
  { intros m pat Hm Hpat.
    apply (replace_all_unchanged m
             (λ t, all_chars (λ c, negb (Ascii.eqb c "<") && negb (Ascii.eqb c ":")) t
                   = true)); [| |done].
    - intros c t. simpl. by intros [_ ?]%andb_prop.
    - intros t Ht. rewrite Hm. by rewrite (literal_ci_needs_special pat t Hpat Ht). }
  unfold sanitize_string.
  rewrite (Hspecial Regex.script_tag "<script");
    [|intros t; unfold Regex.script_tag; by destruct (Regex.startsWith_ci _ t)|done].
  rewrite (Hspecial (Regex.literal_ci "javascript:") "javascript:");
    [|intros t; unfold Regex.literal_ci; by destruct (Regex.startsWith_ci _ t)|done].
  rewrite (Hspecial (Regex.literal_ci "data:") "data:");
    [|intros t; unfold Regex.literal_ci; by destruct (Regex.startsWith_ci _ t)|done].
  rewrite (Hspecial (Regex.literal_ci "vbscript:") "vbscript:");
    [|intros t; unfold Regex.literal_ci; by destruct (Regex.startsWith_ci _ t)|done].
  apply (replace_all_unchanged _ (λ t, Regex.find_ci "on" t = None)); [| |done].
  - intros c t Ht. by apply find_ci_None_tail in Ht as [_ ?].
  - intros t Ht. apply find_ci_None_head in Ht.
    cbn [Regex.alt]. unfold Regex.literal_ci.
    destruct (Regex.startsWith_ci "onload" t) eqn:H1;
      [apply startsWith_ci_on in H1; congruence|].
    destruct (Regex.startsWith_ci "onerror" t) eqn:H2;
      [apply startsWith_ci_on in H2; congruence|].
    destruct (Regex.startsWith_ci "onclick" t) eqn:H3;
      [apply startsWith_ci_on in H3; congruence|done].
Qed.

Lemma assigned_all {A} (entries : list (string * A)) :
  existsb (λ kv : string * A, String.eqb kv.1 "__proto__") entries = false →
  JS.assigned entries = entries.
Proof.
  induction entries as [|[k v] entries IH]; [done|]. simpl.
  intros [Hk Hrest]%orb_false_elim. unfold JS.assigned in *. simpl.
  rewrite Hk. simpl. by rewrite IH.
Qed.

(** X12. With input sanitization on or off, params that have no property
    [__proto__] of their own, whose property values are simple, whose string
    properties are harmless (no [<], no [:], no [on] in any case) and whose
    numbers are safe integers pass payload validation when their
    serialization is within the size limit. *)
Theorem X12_harmless_payload_is_accepted p props serialized :
  JS.has_own "__proto__" props = false →
  JS.safe (VObj props) = true →
  Forall (λ kv : string * value, harmless_value kv.2 = true) props →
  JSON.stringify (VObj props) = Some serialized →
  Str.len serialized ≤ maxPayloadSize (dataValidation p) →
  sanitizeInputs (VObj props) = Some (VObj props) ∧
  validatePayload p (VObj props) = payload_ok.
Proof.
  intros Hown _ Hall Hser Hsize.
  assert (Hmap : map (λ kv : string * value, (kv.1, sanitize_simple kv.2)) props
                 = props).
  { clear Hser Hsize Hown. induction Hall as [|[k v] props Hv _ IH]; [done|].
    simpl. rewrite IH. do 2 f_equal.
    unfold harmless_value in Hv. apply andb_prop in Hv as [_ Hv].
    destruct v; try done. simpl in *. by rewrite sanitize_string_harmless. }
  assert (Hsan : sanitizeInputs (VObj props) = Some (VObj props)).
  { rewrite sanitizeInputs_simple; [by rewrite Hmap, (assigned_all props Hown)|].
    eapply Forall_impl; [exact Hall|]. intros kv Hkv. simpl in *.
    unfold harmless_value in Hkv. by apply andb_prop in Hkv as [? _]. }
  split; [done|].
  apply (validatePayload_within p (VObj props) serialized Hser Hsize).
  intros _. by exists (VObj props).
Qed.

Lemma X12_harmless_payload_is_accepted_witness :
  validatePayload default_policy
    (VObj [("content", VStr "Meeting notes, 3 pm"); ("importance", VNum 1);
           ("tags", VArr [VStr "data:x"])])
  = payload_ok.
Proof.
  refine (proj2 (X12_harmless_payload_is_accepted default_policy
                   [("content", VStr "Meeting notes, 3 pm"); ("importance", VNum 1);
                    ("tags", VArr [VStr "data:x"])]
                   _ eq_refl eq_refl _ eq_refl _)).
  - repeat constructor.
  - vm_compute. discriminate.
Defined.

(** ** Keys and identifiers built from numbers *)

Lemma all_chars_impl (P Q : ascii → bool) s :
  (∀ c, P c = true → Q c = true) → all_chars P s = true → all_chars Q s = true.
Proof.
  intros HPQ. induction s as [|c s IH]; [done|]. simpl.
  intros [Hc Hs]%andb_prop. by rewrite (HPQ c Hc), IH.
Qed.

Lemma all_chars_app P a b :
  all_chars P (a +:+ b) = (all_chars P a && all_chars P b)%bool.
Proof.
  induction a as [|c a IH]; [done|]. rewrite append_head. simpl.
  by rewrite IH, andb_assoc.
Qed.

Lemma pretty_N_go_digits x s :
  all_chars Str.is_digit s = true → all_chars Str.is_digit (pretty_N_go x s) = true.
Proof.
  revert s. induction (N.lt_wf_0 x) as [x _ IH]; intros s Hs.
  assert (x = 0 ∨ 0 < x)%N as [->|Hpos] by lia; [done|].
  rewrite pretty_N_go_step by done. apply IH; [by apply N.div_lt|].
  simpl. rewrite Hs, andb_true_r.
  unfold pretty_N_char. by repeat case_match.
Qed.

Lemma pretty_N_digits (x : N) : all_chars Str.is_digit (pretty x) = true.
Proof.
  unfold pretty, pretty_N. case_decide; [done|]. by apply pretty_N_go_digits.
Qed.

Lemma pretty_nat_digits (n : nat) : all_chars Str.is_digit (pretty n) = true.
Proof. apply pretty_N_digits. Qed.

(** The decimal form of an integer has digits and, in front of a negative
    one, a minus sign. *)
Lemma pretty_Z_chars (z : Z) :
  all_chars (λ c, Str.is_digit c || Ascii.eqb c "-") (pretty z) = true.
Proof.
  assert (Hweak : ∀ s, all_chars Str.is_digit s = true →
                       all_chars (λ c, Str.is_digit c || Ascii.eqb c "-") s = true).
  { intros s. apply all_chars_impl. by intros c ->. }
  destruct z as [|x|x]; [done|apply Hweak, (pretty_N_digits (N.pos x))|].
  change (pretty (Z.neg x)) with ("-" +:+ pretty (N.pos x)).
  rewrite all_chars_app. simpl. apply Hweak, pretty_N_digits.
Qed.

(** A string is cut in one way only at a separator that its tail has not. *)
Lemma cut_at_last sep s1 s2 d1 d2 :
  all_chars (λ c, negb (Ascii.eqb c sep)) d1 = true →
  all_chars (λ c, negb (Ascii.eqb c sep)) d2 = true →
  s1 +:+ String sep d1 = s2 +:+ String sep d2 →
  s1 = s2 ∧ d1 = d2.
Proof.
  intros Hd1 Hd2. revert s2.
  assert (Hno : ∀ d a b, all_chars (λ c, negb (Ascii.eqb c sep)) d = true →
                         d ≠ a +:+ String sep b).
  { intros d a b Hd ->. rewrite all_chars_app in Hd. simpl in Hd.
    rewrite Ascii.eqb_refl in Hd. simpl in Hd. by rewrite andb_false_r in Hd. }
  induction s1 as [|c s1 IH]; intros [|c' s2]; rewrite ?append_head; simpl.
  - by intros [= ->].
  - intros [= <- Heq]. by destruct (Hno d1 s2 d2 Hd1).
  - intros [= -> Heq]. by destruct (Hno d2 s1 d1 Hd2).
  - intros [= -> Heq]. destruct (IH _ Heq) as [-> ->]. done.
Qed.


Lemma pretty_Z_free_of (sep : ascii) (z : Z) :
  Str.is_digit sep = false → sep ≠ "-"%char →
  all_chars (λ c, negb (Ascii.eqb c sep)) (pretty z) = true.
Proof.
  intros Hdigit Hdash. eapply all_chars_impl; [|apply pretty_Z_chars].
  intros c Hc. apply negb_true_iff, Ascii.eqb_neq. intros ->.
  rewrite Hdigit in Hc. simpl in Hc. apply Ascii.eqb_eq in Hc. done.
Qed.

(** X13. The key of a rate counter determines the server and the minute:
    two servers never share a counter, also when a server name has a colon
    in it. *)
Theorem X13_rate_key_injective serverName1 now1 serverName2 now2 :
  rate_key serverName1 now1 = rate_key serverName2 now2 →
  serverName1 = serverName2 ∧ getMinutes now1 = getMinutes now2.
Proof.
  unfold rate_key, JS.number_to_string. rewrite !append_head. simpl.
  intros Heq. apply cut_at_last in Heq as [-> Hminutes];
    [|by apply pretty_Z_free_of..].
  split; [done|]. by apply (inj pretty).
Qed.

Lemma X13_rate_key_injective_witness :
  rate_key "a:1" 120000 = rate_key "a:1" 3720000 ∧
  "a:1" = "a:1" ∧ getMinutes 120000 = getMinutes 3720000.
Proof.
  split; [reflexivity|].
  exact (X13_rate_key_injective "a:1" 120000 "a:1" 3720000 eq_refl).
Defined.

Lemma append_cancel p a b : p +:+ a = p +:+ b → a = b.
Proof.
  induction p as [|c p IH]; [done|]. rewrite !append_head. intros [= Heq]. auto.
Qed.



Lemma sendRequest_counter wire serverName method_name params now st :
  Client.requestCounter st
  ≤ Client.requestCounter
      (Client.sendRequest wire serverName method_name params now st).2.
Proof.
  unfold Client.sendRequest, Client.generateMockResponse, Client.generateRequestId,
    bind, gets, throw, ret.
  destruct (Client.servers st !! serverName) as [server|]; [|done].
  destruct (Client.server_status server);
    try (destruct (Client.fallbackToMock (Client.config st)); simpl; lia).
  destruct (Client.config_type server) as [[]|]; simpl; lia.
Qed.

(** ** Calls through the proxy *)

Lemma call_or_mock_toolsCalled wire serverName toolName args params now rm :
  toolsCalled (call_or_mock wire serverName toolName args params now rm).2
  = toolsCalled rm.
Proof. rewrite call_or_mock_run. by destruct (negb _ && _)%bool. Qed.

(** The three ways a call through the proxy can go. *)
Lemma validation_cases (checked : outcome SecurityValidation) :
  (∃ message, checked = Throws message) ∨
  (∃ validation, checked = Returns validation ∧ allowed validation = false) ∨
  (∃ validation, checked = Returns validation ∧ allowed validation = true).
Proof.
  destruct checked as [validation|message]; [|by left; eexists].
  right. destruct (allowed validation) eqn:Hallowed; [right|left]; by eexists.
Qed.

(** X15. Every call through the proxy is recorded in [toolsCalled], once,
    under the name [server.tool]: also a call that is refused, one in which
    validation throws, and one that the server fails. *)
Theorem X15_every_call_is_recorded wire serverName context toolName args now rm :
  toolsCalled (createMCPToolProxy wire serverName context toolName args now rm).2
  = toolsCalled rm ++ [serverName +:+ "." +:+ toolName].
Proof.
  destruct (validation_cases
              (validateToolCall context serverName toolName
                 (convertArgsToParams toolName args) now (securityManager rm)).1)
    as [[message Hthrown]|[(validation & Hreturned & Hallowed)
                          |(validation & Hreturned & Hallowed)]].
  - by rewrite (proxy_refused_run _ _ _ _ _ _ _ message) by by left.
  - rewrite (proxy_refused_run _ _ _ _ _ _ _
               (access_denied (validation_reason validation)));
      [done|right; by exists validation].
  - rewrite (proxy_allowed_run _ _ _ _ _ _ _ validation) by done.
    cbn [snd]. change (toolsCalled (with_security ?sm ?r)) with (toolsCalled r).
    by rewrite call_or_mock_toolsCalled.
Qed.

Lemma in_flight_nonneg st serverName :
  concurrency_nonneg st → 0 ≤ in_flight serverName st.
Proof.
  intros Hinv. unfold in_flight.
  destruct (concurrentRequests st !! serverName) as [c|] eqn:Hc; simpl;
    [by apply (Hinv serverName c)|lia].
Qed.

(** X16. A call through the proxy leaves the number of requests in flight
    of every server as it was when it is over, however it ends: the count
    taken at the start is given back in the [finally] block, and a refused
    call takes none. *)
Theorem X16_call_gives_back_its_slot
  wire serverName context toolName args now rm other :
  concurrency_nonneg (securityManager rm) →
  in_flight other
    (securityManager
       (createMCPToolProxy wire serverName context toolName args now rm).2)
  = in_flight other (securityManager rm).
Proof.
  intros Hinv.
  pose proof (validateToolCall_frame context serverName toolName
                (convertArgsToParams toolName args) now (securityManager rm))
    as [_ Hframe].
  set (checked := validateToolCall _ _ _ _ _ _) in *.
  assert (Hsame : in_flight other checked.2 = in_flight other (securityManager rm)).
  { unfold in_flight. by rewrite Hframe. }
  destruct (validation_cases checked.1)
    as [[message Hthrown]|[(validation & Hreturned & Hallowed)
                          |(validation & Hreturned & Hallowed)]].
  - by rewrite (proxy_refused_run _ _ _ _ _ _ _ message) by by left.
  - rewrite (proxy_refused_run _ _ _ _ _ _ _
               (access_denied (validation_reason validation)));
      [done|right; by exists validation].
  - rewrite (proxy_allowed_run _ _ _ _ _ _ _ validation) by done.
    cbn [snd securityManager with_security].
    rewrite call_or_mock_security. cbn [securityManager with_security].
    fold checked.
    rewrite trackRequestEnd_in_flight, trackRequestStart_in_flight, Hsame.
    pose proof (in_flight_nonneg _ other Hinv).
    destruct (decide (serverName = other)); lia.
Qed.

Lemma X16_call_gives_back_its_slot_witness :
  concurrency_nonneg (securityManager Runtime.new) ∧
  in_flight "automem"
    (securityManager
       (createMCPToolProxy silent_wire "automem" default_context "recall"
          [VStr "q"] 0 Runtime.new).2)
  = in_flight "automem" (securityManager Runtime.new).
Proof.
  assert (Hinv : concurrency_nonneg (securityManager Runtime.new)).
  { intros s n Hlookup. simpl in Hlookup. by rewrite lookup_empty in Hlookup. }
  split; [exact Hinv|].
  exact (X16_call_gives_back_its_slot silent_wire "automem" default_context "recall"
           [VStr "q"] 0 Runtime.new "automem" Hinv).
Defined.

(** X17. With the mock fallback on, as the constructor leaves it, or with
    the server not ready, a call through the proxy does not reach the MCP
    client: no request is sent and no request id is used up. *)
Theorem X17_client_is_not_reached wire serverName context toolName args now rm :
  fallbackToMocks rm = true ∨
  Client.isServerAvailable serverName (mcpClient rm) = false →
  mcpClient (createMCPToolProxy wire serverName context toolName args now rm).2
  = mcpClient rm.
Proof.
  intros Hoff.
  destruct (validation_cases
              (validateToolCall context serverName toolName
                 (convertArgsToParams toolName args) now (securityManager rm)).1)
    as [[message Hthrown]|[(validation & Hreturned & Hallowed)
                          |(validation & Hreturned & Hallowed)]].
  - by rewrite (proxy_refused_run _ _ _ _ _ _ _ message) by by left.
  - rewrite (proxy_refused_run _ _ _ _ _ _ _
               (access_denied (validation_reason validation)));
      [done|right; by exists validation].
  - rewrite (proxy_allowed_run _ _ _ _ _ _ _ validation) by done.
    cbn [snd]. change (mcpClient (with_security ?sm ?r)) with (mcpClient r).
    rewrite call_or_mock_run.
    match goal with |- context [negb (fallbackToMocks ?r)] =>
      change (fallbackToMocks r) with (fallbackToMocks rm) end.
    match goal with |- context [Client.isServerAvailable _ (mcpClient ?r)] =>
      change (mcpClient r) with (mcpClient rm) end.
    destruct Hoff as [->| ->]; [done|]. by rewrite andb_false_r.
Qed.

Lemma X17_client_is_not_reached_witness :
  (fallbackToMocks Runtime.new = true ∨
   Client.isServerAvailable "automem" (mcpClient Runtime.new) = false) ∧
  mcpClient
    (createMCPToolProxy silent_wire "automem" default_context "recall"
       [VStr "q"] 0 Runtime.new).2
  = mcpClient Runtime.new.
Proof.
  split; [by left|].
  exact (X17_client_is_not_reached silent_wire "automem" default_context "recall"
           [VStr "q"] 0 Runtime.new (or_introl eq_refl)).
Defined.

(** ** Requests of the MCP client *)

(** X18. The client writes to a server only when it is ready and not an
    HTTP server: for a server that is unknown or not ready, and for an HTTP
    server, the outcome and the state do not depend on what the server would
    answer.  An unknown server is an error also with the mock fallback on,
    and uses up no request id. *)
Theorem X18_only_ready_stdio_servers_are_written_to
  wire wire' serverName method_name params now st :
  Client.isServerAvailable serverName st = false ∨
  Client.config_type <$> Client.servers st !! serverName = Some (Some Client.http) →
  Client.sendRequest wire serverName method_name params now st
  = Client.sendRequest wire' serverName method_name params now st ∧
  (Client.servers st !! serverName = None →
   Client.sendRequest wire serverName method_name params now st
   = (Throws ("Server " +:+ serverName +:+ " not found"), st)).
Proof.
  unfold Client.isServerAvailable. intros Hcase.
  assert (Hrun : ∀ w, Client.sendRequest w serverName method_name params now st
    = match Client.servers st !! serverName with
      | None => (Throws ("Server " +:+ serverName +:+ " not found"), st)
      | Some server =>
          match Client.server_status server with
          | Client.ready =>
              match Client.config_type server with
              | Some Client.http =>
                  (Throws "HTTP MCP servers not yet implemented",
                   (Client.generateRequestId now st).2)
              | _ => (w serverName
                        (VObj [("jsonrpc", VStr "2.0");
                               ("id", VStr ("req_" +:+ JS.number_to_string
                                              (Client.requestCounter st + 1)
                                            +:+ "_" +:+ JS.number_to_string now));
                               ("method", VStr method_name); ("params", params)]),
                      (Client.generateRequestId now st).2)
              end
          | other =>
              if Client.fallbackToMock (Client.config st)
              then Client.generateMockResponse method_name params now st
              else (Throws ("Server " +:+ serverName +:+ " not ready (status: "
                            +:+ Client.status_name other +:+ ")"), st)
          end
      end).
  { intros w. unfold Client.sendRequest, bind at 1, gets at 1.
    destruct (Client.servers st !! serverName) as [server|]; [|done].
    destruct (Client.server_status server);
      try (unfold bind, gets, throw;
           by destruct (Client.fallbackToMock (Client.config st))).
    unfold bind, Client.generateRequestId, throw.
    by destruct (Client.config_type server) as [[]|]. }
  rewrite !Hrun. split; [|by intros ->].
  destruct (Client.servers st !! serverName) as [server|]; [|done].
  destruct (Client.server_status server); try done.
  destruct Hcase as [?|[= Hhttp]]; [done|]. by rewrite Hhttp.
Qed.

Lemma X18_only_ready_stdio_servers_are_written_to_witness :
  (Client.isServerAvailable "automem" (mcpClient Runtime.new) = false ∨
   Client.config_type <$> Client.servers (mcpClient Runtime.new) !! "automem"
   = Some (Some Client.http)) ∧
  Client.sendRequest silent_wire "automem" "tools/call" (VObj []) 0
    (mcpClient Runtime.new)
  = Client.sendRequest ok_wire "automem" "tools/call" (VObj []) 0
      (mcpClient Runtime.new).
Proof.
  split; [by left|].
  exact (proj1 (X18_only_ready_stdio_servers_are_written_to silent_wire ok_wire
                  "automem" "tools/call" (VObj []) 0 (mcpClient Runtime.new)
                  (or_introl eq_refl))).
Defined.

(** ** Rate counters of different servers *)





(** ** Arguments and responses of a tool call *)

Lemma get_positional (args : list value) (k i : nat) :
  (i < length args)%nat →
  JS.get ("arg" +:+ JS.index_key (k + i))
    (imap (λ index a, ("arg" +:+ JS.index_key (k + index), a)) args)
  = nth i args VUndefined.
Proof.
  revert k i. induction args as [|a args IH]; intros k i Hi; simpl in Hi; [lia|].
  cbn [imap JS.get]. destruct i as [|i].
  - rewrite Nat.add_0_r, String.eqb_refl. done.
  - destruct (String.eqb_spec ("arg" +:+ JS.index_key (k + S i))
                ("arg" +:+ JS.index_key (k + 0))) as [Heq|_].
    + apply append_cancel in Heq. unfold JS.index_key in Heq.
      apply (inj pretty) in Heq. lia.
    + rewrite (imap_ext _ (λ index a, ("arg" +:+ JS.index_key (S k + index), a)));
        [|intros j x _; simpl; by rewrite Nat.add_succ_r].
      replace (k + S i)%nat with (S k + i)%nat by lia.
      rewrite IH by lia. done.
Qed.

(** X20. For a tool without a mapping of its own, called with arguments
    that are not one single object, no argument is lost: the params hold
    the argument at position [i] under the key [arg] followed by [i]. *)
Theorem X20_positional_arguments_are_kept toolName args i :
  known_tool toolName = false →
  (∀ only, args = [only] → JS.is_object only = false) →
  (i < length args)%nat →
  get_prop (convertArgsToParams toolName args) ("arg" +:+ JS.index_key i)
  = Some (arg i args).
Proof.
  intros Hunknown Hnot Hi.
  destruct (known_tool_false _ Hunknown) as (H1 & H2 & H3 & H4).
  unfold convertArgsToParams. rewrite H1, H2, H3, H4.
  assert (Hgeneric : (Nat.eqb (length args) 1 && JS.is_object (arg 0 args))%bool
                     = false).
  { destruct args as [|a [|b rest]]; [done| |done].
    change (arg 0 [a]) with a. by rewrite (Hnot a eq_refl). }
  rewrite Hgeneric. cbn [get_prop]. f_equal.
  exact (get_positional args 0 i Hi).
Qed.

Lemma X20_positional_arguments_are_kept_witness :
  known_tool "associate" = false ∧
  (∀ only, [VStr "a"; VNull; VNum 7] = [only] → JS.is_object only = false) ∧
  (2 < length [VStr "a"; VNull; VNum 7])%nat ∧
  get_prop (convertArgsToParams "associate" [VStr "a"; VNull; VNum 7])
    ("arg" +:+ JS.index_key 2)
  = Some (VNum 7).
Proof.
  assert (Hnot : ∀ only, [VStr "a"; VNull; VNum 7] = [only] →
                         JS.is_object only = false) by (intros only Heq; discriminate Heq).
  assert (Hi : (2 < length [VStr "a"; VNull; VNum 7])%nat) by (simpl; lia).
  split; [reflexivity|]. split; [exact Hnot|]. split; [exact Hi|].
  exact (X20_positional_arguments_are_kept "associate" [VStr "a"; VNull; VNum 7] 2
           eq_refl Hnot Hi).
Defined.

Lemma mapM_text_blocks texts :
  mapM (λ item, ty ← get_prop item "type";
                if is_text ty then get_prop item "text" else Some item)
    (map text_block texts)
  = Some (map VStr texts).
Proof.
  induction texts as [|text texts IH]; [done|].
  cbn [map]. unfold mapM in *. rewrite IH. done.
Qed.

(** X21. A response without a truthy [result] whose [content] is an array
    of text blocks is turned into the texts, one per line. *)
Theorem X21_text_content_is_joined response result texts :
  get_prop response "result" = Some result →
  JS.truthy result = false →
  get_prop response "content" = Some (VArr (map text_block texts)) →
  formatMCPResponse response = Some (VStr (Str.join newline texts)).
Proof.
  intros Hresult Hfalsy Hcontent. unfold formatMCPResponse.
  rewrite Hresult. simpl. rewrite Hfalsy, Hcontent. simpl.
  rewrite mapM_text_blocks. simpl. unfold array_join.
  assert (Htexts : mapM (λ x, match x with
                              | VUndefined | VNull => Some EmptyString
                              | _ => toString x
                              end) (map VStr texts) = Some texts).
  { clear. induction texts as [|text texts IH]; [done|]. simpl. by rewrite IH. }
  unfold mapM in *. by rewrite Htexts.
Qed.

Lemma X21_text_content_is_joined_witness :
  let response := VObj [("content", VArr (map text_block ["one"; "two"]))] in
  get_prop response "result" = Some VUndefined ∧
  JS.truthy VUndefined = false ∧
  get_prop response "content" = Some (VArr (map text_block ["one"; "two"])) ∧
  formatMCPResponse response = Some (VStr (Str.join newline ["one"; "two"])).
Proof.
  cbv zeta. split; [reflexivity|]. split; [reflexivity|]. split; [reflexivity|].
  exact (X21_text_content_is_joined
           (VObj [("content", VArr (map text_block ["one"; "two"]))])
           VUndefined ["one"; "two"] eq_refl eq_refl eq_refl).
Defined.

Lemma mapM_None_inv {A B} (f : A → option B) l :
  mapM f l = None → ∃ x, In x l ∧ f x = None.
Proof.
  induction l as [|a l IH]; [done|]. simpl.
  destruct (f a) as [b|] eqn:Hfa; [|exists a; split; [by left|done]].
  destruct (mapM f l) as [bs|]; [done|]. intros _.
  destruct IH as (x & Hin & Hx); [done|]. exists x. split; [by right|done].
Qed.

Lemma get_prop_None v k :
  get_prop v k = None ↔ v = VNull ∨ v = VUndefined.
Proof.
  split; [|by intros [-> | ->]].
  destruct v; simpl; try done; auto.
Qed.

(** The conversion to a string throws for the unprintable values, and for
    no other. *)
Lemma toString_None v : toString v = None ↔ unprintable v = true.
Proof.
  induction v as [| | | | |items IH|props IH] using value_ind; try done.
  - cbn [toString unprintable]. rewrite fmap_None. split.
    + intros (x & Hin & Hx)%mapM_None_inv. apply existsb_exists.
      exists x. split; [done|].
      apply (proj1 (List.Forall_forall _ _) IH x Hin). by destruct x.
    + intros (x & Hin & Hx)%existsb_exists. apply (mapM_None _ _ x Hin).
      apply (proj1 (List.Forall_forall _ _) IH x Hin) in Hx. by destruct x.
  - cbn [toString unprintable]. by destruct (JS.has_own "toString" props).
Qed.

Lemma array_join_None sep items :
  array_join sep items = None ↔ ∃ x, In x items ∧ unprintable x = true.
Proof.
  unfold array_join. rewrite fmap_None. split.
  - intros (x & Hin & Hx)%mapM_None_inv. exists x. split; [done|].
    apply toString_None. by destruct x.
  - intros (x & Hin & Hx). apply (mapM_None _ _ x Hin).
    apply toString_None in Hx. by destruct x.
Qed.

(** X22. Formatting a response fails, with a [TypeError], in these cases
    and in no other: the response is [null] or [undefined]; or it has no
    truthy [result], its [content] is an array, and an item of the array is
    [null] or [undefined], or what is shown of an item (its [text] for a
    text block, the item itself otherwise) cannot be converted to a
    string. *)
Theorem X22_formatMCPResponse_failures response :
  formatMCPResponse response = None ↔
  (response = VNull ∨ response = VUndefined) ∨
  (∃ result items item,
     get_prop response "result" = Some result ∧ JS.truthy result = false ∧
     get_prop response "content" = Some (VArr items) ∧
     In item items ∧
     (item = VNull ∨ item = VUndefined ∨
      ∃ x, shown item = Some x ∧ unprintable x = true)).
Proof.
  unfold formatMCPResponse. fold shown. split.
  - destruct (get_prop response "result") as [result|] eqn:Hresult; simpl;
      [|intros _; left; by apply (get_prop_None response "result")].
    destruct (JS.truthy result) eqn:Hfalsy; [done|].
    destruct (get_prop response "content") as [content|] eqn:Hcontent; simpl;
      [|apply get_prop_None in Hcontent as [-> | ->]; discriminate Hresult].
    destruct (JS.truthy content); [|done].
    destruct content as [| | | | |items|]; try done.
    destruct (mapM shown items) as [texts|] eqn:Hmap.
    + simpl. rewrite fmap_None. intros (x & Hx & Hbad)%array_join_None.
      destruct (mapM_In _ _ _ _ Hmap Hx) as (item & Hin & Hshown).
      right. exists result, items, item. repeat split; try done.
      right. right. by exists x.
    + intros _. apply mapM_None_inv in Hmap as (item & Hin & Hitem).
      right. exists result, items, item. repeat split; try done.
      unfold shown in Hitem.
      destruct (get_prop item "type") as [ty|] eqn:Hty; simpl in Hitem.
      * destruct (is_text ty); [|done].
        apply get_prop_None in Hitem as [-> | ->]; discriminate Hty.
      * apply get_prop_None in Hty as [-> | ->]; auto.
  - intros [[-> | ->]|(result & items & item & Hresult & Hfalsy & Hcontent & Hin
                       & Hbad)]; try done.
    rewrite Hresult. simpl. rewrite Hfalsy, Hcontent. simpl.
    destruct (mapM shown items) as [texts|] eqn:Hmap; [|done]. simpl.
    rewrite fmap_None. apply array_join_None.
    destruct Hbad as [-> | [-> | (x & Hshown & Hx)]].
    + by rewrite (mapM_None shown items VNull Hin eq_refl) in Hmap.
    + by rewrite (mapM_None shown items VUndefined Hin eq_refl) in Hmap.
    + exists x. split; [|done]. clear Hcontent.
      revert texts Hmap. induction items as [|a items IH]; [done|].
      intros texts. simpl.
      destruct (shown a) as [b|] eqn:Ha; [|done].
      destruct (mapM shown items) as [bs|] eqn:Hbs; [|done]. intros [= <-].
      destruct Hin as [->|Hin].
      * left. congruence.
      * right. by apply (IH Hin bs).
Qed.

(** ** Replies of a stdio server *)

Lemma findIndex_Some parsed_id q queueIndex :
  Pending.findIndex parsed_id q = Some queueIndex →
  ∃ item before after,
    parsed_id = VStr item ∧ q = before ++ item :: after ∧
    length before = queueIndex ∧ ¬ In item before.
Proof.
  revert queueIndex. induction q as [|head q IH]; intros queueIndex; [done|]. simpl.
  destruct (Pending.id_matches parsed_id head) eqn:Hmatch.
  - intros [= <-]. exists head, [], q. unfold Pending.id_matches in Hmatch.
    destruct parsed_id; try done. apply String.eqb_eq in Hmatch as ->.
    repeat split; auto.
  - destruct (Pending.findIndex parsed_id q) as [n|]; [|done].
    intros [= <-]. destruct (IH n eq_refl) as (item & before & after & -> & -> & <- & Hnot).
    exists item, (head :: before), after. repeat split; auto.
    intros [->|Hin]; [|done]. simpl in Hmatch. by rewrite String.eqb_refl in Hmatch.
Qed.




(** X23. A reply settles at most one pending request, the first in the
    queue with the id of the reply, and takes exactly that one out of the
    queue; the others stay, in their order.  The request is rejected, with
    a message that starts with [MCP Error: ], when the reply has a truthy
    [error], and resolved with the reply otherwise. *)
Theorem X23_reply_settles_the_first_match parsed q q' item how :
  Pending.handleStdioResponse parsed q = (q', Some (item, how)) →
  ∃ frame before after,
    parsed = Some frame ∧ get_prop frame "id" = Some (VStr item) ∧
    q = before ++ item :: after ∧ q' = before ++ after ∧ ¬ In item before ∧
    (if JS.truthy (default VUndefined (get_prop frame "error"))
     then ∃ text, how = Pending.Rejected ("MCP Error: " +:+ text)
     else how = Pending.Resolved frame).
Proof.
  unfold Pending.handleStdioResponse.
  destruct parsed as [frame|]; [|done].
  destruct (get_prop frame "id") as [parsed_id|] eqn:Hid; [|done].
  destruct (Pending.findIndex parsed_id q) as [queueIndex|] eqn:Hfind; [|done].
  apply findIndex_Some in Hfind as (id & before & after & -> & -> & <- & Hnot).
  unfold Pending.queue. rewrite list_lookup_middle by done.
  rewrite delete_middle.
  destruct (Pending.settle frame) as [how'|] eqn:Hsettle; [|done].
  intros [= <- <- <-]. exists frame, before, after.
  repeat split; try done.
  unfold Pending.settle, Pending.error_message in Hsettle. cbv zeta in Hsettle.
  destruct (JS.truthy (default VUndefined (get_prop frame "error")));
    [|by injection Hsettle as <-].
  destruct (toString _) as [text|]; [|done]. injection Hsettle as <-.
  by exists text.
Qed.

Lemma X23_reply_settles_the_first_match_witness :
  let frame := VObj [("jsonrpc", VStr "2.0"); ("id", VStr "req_2_0");
                     ("error", VObj [("message", VStr "no such tool")])] in
  Pending.handleStdioResponse (Some frame) ["req_1_0"; "req_2_0"; "req_3_0"]
  = (["req_1_0"; "req_3_0"],
     Some ("req_2_0", Pending.Rejected "MCP Error: no such tool")) ∧
  ∃ frame' before after,
    Some frame = Some frame' ∧ get_prop frame' "id" = Some (VStr "req_2_0") ∧
    ["req_1_0"; "req_2_0"; "req_3_0"] = before ++ "req_2_0" :: after ∧
    ["req_1_0"; "req_3_0"] = before ++ after ∧ ¬ In "req_2_0" before ∧
    (if JS.truthy (default VUndefined (get_prop frame' "error"))
     then ∃ text, Pending.Rejected "MCP Error: no such tool"
                  = Pending.Rejected ("MCP Error: " +:+ text)
     else Pending.Rejected "MCP Error: no such tool" = Pending.Resolved frame').
Proof.
  cbv zeta. split; [reflexivity|].
  exact (X23_reply_settles_the_first_match
           (Some (VObj [("jsonrpc", VStr "2.0"); ("id", VStr "req_2_0");
                        ("error", VObj [("message", VStr "no such tool")])]))
           ["req_1_0"; "req_2_0"; "req_3_0"] ["req_1_0"; "req_3_0"] "req_2_0"
           (Pending.Rejected "MCP Error: no such tool") eq_refl).
Defined.



(** ** The sandbox and the default policy *)

(** X25. Of the four tool objects of the sandbox, [wordpress] is bound to
    the server name [WordPressAPI], and the default policy lists the server
    as [wordpress]: as long as the list of allowed servers is the default
    one, every call through [wordpress] is denied at the first check,
    whatever the tool and the params, and the state is left as it was.  The
    three other objects are bound to servers that the list has. *)
Theorem X25_wordpress_binding_is_denied
  context toolName params now st binding server :
  allowedServers (policy st) = allowedServers default_policy →
  In (binding, server) sandbox_bindings →
  (binding = "wordpress" →
   performSecurityChecks context server toolName params now st
   = (Returns (deny (Some "Server WordPressAPI not in allowed list")), st)) ∧
  (binding ≠ "wordpress" → string_in server (allowedServers (policy st)) = true).
Proof.
  intros Hdefault Hin. rewrite performSecurityChecks_run. cbv zeta.
  rewrite !Hdefault.
  destruct Hin as [[= <- <-]|[[= <- <-]|[[= <- <-]|[[= <- <-]|[]]]]]; split;
    first [ by intros [=] | by intros _ | intros Hne; by destruct Hne ].
Qed.

Lemma X25_wordpress_binding_is_denied_witness :
  allowedServers (policy (Security.new no_update)) = allowedServers default_policy ∧
  In ("wordpress", "WordPressAPI") sandbox_bindings ∧
  performSecurityChecks default_context "WordPressAPI" "get_site_info" (VObj []) 0
    (Security.new no_update)
  = (Returns (deny (Some "Server WordPressAPI not in allowed list")),
     Security.new no_update).
Proof.
  assert (Hin : In ("wordpress", "WordPressAPI") sandbox_bindings).
  { right. by left. }
  split; [reflexivity|]. split; [exact Hin|].
  exact (proj1 (X25_wordpress_binding_is_denied default_context "get_site_info"
                  (VObj []) 0 (Security.new no_update) "wordpress" "WordPressAPI"
                  eq_refl Hin) eq_refl).
Defined.

(** X26. The check of the runtime permissions passes for every server and
    every tool when the permissions name a host and a directory to read or
    to write, as the default permissions do; and it passes whatever the
    permissions for a server other than the four it knows. *)
Theorem X26_runtime_permissions_pass context serverName toolName :
  (network_allowedHosts (permissions context) ≠ [] ∧
   (fileSystem_read (permissions context) ≠ [] ∨
    fileSystem_write (permissions context) ≠ [])) ∨
  string_in serverName ["helpscout"; "wordpress"; "serena"; "automem"] = false →
  checkRuntimePermissions context serverName toolName = true.
Proof.
  unfold checkRuntimePermissions. cbv zeta. intros [[Hhosts Hfiles]|Hother].
  - destruct (network_allowedHosts (permissions context)) as [|host hosts]; [done|].
    rewrite andb_false_r.
    destruct Hfiles as [Hread|Hwrite].
    + destruct (fileSystem_read (permissions context)); [done|].
      by rewrite andb_false_r.
    + destruct (fileSystem_write (permissions context)); [done|].
      by rewrite andb_false_r.
  - simpl in Hother. repeat (apply orb_false_elim in Hother as [? Hother]).
    simpl. by repeat match goal with H : String.eqb _ _ = false |- _ =>
                       rewrite H; clear H end.
Qed.

Lemma X26_runtime_permissions_pass_witness :
  ((network_allowedHosts (permissions default_context) ≠ [] ∧
    (fileSystem_read (permissions default_context) ≠ [] ∨
     fileSystem_write (permissions default_context) ≠ [])) ∨
   string_in "serena" ["helpscout"; "wordpress"; "serena"; "automem"] = false) ∧
  checkRuntimePermissions default_context "serena" "read_file" = true.
Proof.
  assert (Hperm : network_allowedHosts (permissions default_context) ≠ [] ∧
                  (fileSystem_read (permissions default_context) ≠ [] ∨
                   fileSystem_write (permissions default_context) ≠ [])).
  { split; [done|]. by left. }
  split; [by left|].
  exact (X26_runtime_permissions_pass default_context "serena" "read_file"
           (or_introl Hperm)).
Defined.

(** ** Redaction, once more *)

Lemma mapM_fixed {A} (f : A → option A) l :
  (∀ x, In x l → f x = Some x) → mapM f l = Some l.
Proof.
  induction l as [|a l IH]; intros Hall; [done|]. simpl.
  rewrite (Hall a (or_introl eq_refl)).
  rewrite IH; [done|]. intros x Hx. apply Hall. by right.
Qed.

Lemma mapM_props_fixed {A} (f : string → A → option A) l :
  (∀ k x, In (k, x) l → f k x = Some x) → mapM_props f l = Some l.
Proof.
  intros Hall. apply mapM_fixed. intros [k x] Hin. simpl. by rewrite (Hall k x Hin).
Qed.

(** What one turn of the loop has stored, the loop stores again. *)
Lemma redact_value_fixed self k x y :
  (∀ out, JS.is_object x = true → self x = Some out →
          sanitizeForLogging out = Some out) →
  redact_value self k x = Some y →
  redact_value sanitizeForLogging k y = Some y.
Proof.
  intros Hself. unfold redact_value.
  destruct (is_sensitive k); [by intros [= <-]|].
  destruct x; try (by intros [= <-]); intros Hy;
    pose proof (Hself y eq_refl Hy) as Hfixed; by destruct y.
Qed.

Lemma assigned_assigned {A} (entries : list (string * A)) :
  JS.assigned (JS.assigned entries) = JS.assigned entries.
Proof.
  unfold JS.assigned. induction entries as [|[k v] entries IH]; [done|].
  simpl. destruct (negb (String.eqb k "__proto__")) eqn:Hk; [|done].
  simpl. by rewrite Hk, IH.
Qed.

(** The keys of the entries of an array are not [__proto__]. *)
Lemma mapM_indexed_assigned {A B} (f : string → A → option B) i l entries :
  mapM_indexed f i l = Some entries → JS.assigned entries = entries.
Proof.
  revert i entries. induction l as [|a l IH]; intros i entries; simpl.
  - by intros [= <-].
  - destruct (f (JS.index_key i) a) as [b|]; [|done].
    destruct (mapM_indexed f (S i) l) as [bs|] eqn:Hrest; [|done].
    intros [= <-]. unfold JS.assigned in *. simpl.
    destruct (String.eqb_spec (JS.index_key i) "__proto__") as [Heq|_].
    + pose proof (pretty_nat_digits i) as Hdigits. unfold JS.index_key in Heq.
      by rewrite Heq in Hdigits.
    + simpl. by rewrite (IH _ _ Hrest).
Qed.

(** X27. Redaction for the log is idempotent: what [sanitizeForLogging]
    returns, it returns unchanged when applied to it again. *)
Theorem X27_sanitizeForLogging_idempotent params logged :
  sanitizeForLogging params = Some logged →
  sanitizeForLogging logged = Some logged.
Proof.
  revert logged. induction params as [| | | |s|items IH|props IH] using value_ind;
    intros logged Hlogged; simpl in Hlogged; try discriminate.
  - by injection Hlogged as <-.
  - by injection Hlogged as <-.
  - destruct (mapM_indexed _ _ _) as [entries|] eqn:Hmap; [|discriminate].
    injection Hlogged as <-. simpl.
    rewrite mapM_props_fixed; [simpl; by rewrite (mapM_indexed_assigned _ _ _ _ Hmap)|].
    intros k y Hin.
    destruct (mapM_indexed_In _ _ _ _ _ _ Hmap Hin) as (x & Hxin & Hx).
    apply (redact_value_fixed Some k x); [|done].
    destruct (chars_are_strings _ _ Hxin) as [c ->]. by intros out [=].
  - destruct (mapM_indexed _ _ _) as [entries|] eqn:Hmap; [|discriminate].
    injection Hlogged as <-. simpl.
    rewrite mapM_props_fixed; [simpl; by rewrite (mapM_indexed_assigned _ _ _ _ Hmap)|].
    intros k y Hin.
    destruct (mapM_indexed_In _ _ _ _ _ _ Hmap Hin) as (x & Hxin & Hx).
    apply (redact_value_fixed sanitizeForLogging k x); [|done].
    intros out _. apply (proj1 (List.Forall_forall _ _) IH x Hxin).
  - destruct (mapM_props _ _) as [entries|] eqn:Hmap; [|discriminate].
    injection Hlogged as <-. simpl.
    rewrite mapM_props_fixed; [simpl; by rewrite assigned_assigned|].
    intros k y Hin. apply assigned_In in Hin.
    destruct (mapM_props_In _ _ _ _ _ Hmap Hin) as (x & Hxin & Hx).
    apply (redact_value_fixed sanitizeForLogging k x); [|done].
    intros out _. apply (proj1 (List.Forall_forall _ _) IH (k, x) Hxin).
Qed.

Lemma X27_sanitizeForLogging_idempotent_witness :
  let params := VObj [("query", VStr "q"); ("apiKey", VStr "k-1");
                      ("tags", VArr [VStr "a"; VObj [("token", VNum 7)]])] in
  let logged := VObj [("query", VStr "q"); ("apiKey", REDACTED);
                      ("tags", VObj [("0", VStr "a");
                                     ("1", VObj [("token", REDACTED)])])] in
  sanitizeForLogging params = Some logged ∧
  sanitizeForLogging logged = Some logged.
Proof.
  cbv zeta. split; [by vm_compute|].
  apply (X27_sanitizeForLogging_idempotent
           (VObj [("query", VStr "q"); ("apiKey", VStr "k-1");
                  ("tags", VArr [VStr "a"; VObj [("token", VNum 7)]])])).
  by vm_compute.
Defined.
